(** * TemPy widgets: the table reconciler and the list tree builder

    A shallow embedding of [tempy/widgets.py]: [TempyTable] (grid to
    row/cell subtree reconciliation) and [TempyListMeta] / [TempyList]
    (nested structure to nested list tree), with the properties the
    specification states about them. *)

From Stdlib Require Import String ZArith Bool Arith Lia List.
Import ListNotations.
Set Warnings "-register-all".
Local Open Scope string_scope.
Local Open Scope list_scope.

(** ** Python values *)

(** The leaf values that reach the widgets: [None], strings and integers. *)
Inductive pyval : Type :=
| PNone
| PStr (s : string)
| PInt (z : Z).

Definition pyval_eqb (a b : pyval) : bool :=
  match a, b with
  | PNone, PNone => true
  | PStr s, PStr s' => String.eqb s s'
  | PInt z, PInt z' => Z.eqb z z'
  | _, _ => false
  end.

Definition pyval_eq_dec (a b : pyval) : {a = b} + {a <> b}.
Proof. decide equality; [apply string_dec | apply Z.eq_dec]. Defined.

(** Python truth value of a leaf ([if caption:]). *)
Definition truthy (v : pyval) : bool :=
  match v with
  | PNone => false
  | PStr s => negb (String.eqb s "")
  | PInt z => negb (Z.eqb z 0)
  end.

Definition is_None (v : pyval) : bool :=
  match v with PNone => true | _ => false end.

(** The exceptions the widgets raise or let through. *)
Inductive exn : Type :=
| WidgetDataError (msg : string)
| WidgetError (msg : string)
| ValueError
| TypeError
| AttributeError
| IndexError.

(** Result of a call: a value, a raised exception, or [OutOfFuel] when a
    loop of the model used up its step budget.  The cell loop of
    [populate] appends to the row it iterates and need not end; every
    loop is run on a budget that only a loop that never ends uses up
    (see [merge_cells_fuel], [populate_rows_fuel] and [TempyList_fuel]),
    so that [OutOfFuel] stands for a call that does not return. *)
Inductive result (A : Type) : Type :=
| Ok (a : A)
| Raise (e : exn)
| OutOfFuel.
Arguments Ok {A} a.
Arguments Raise {A} e.
Arguments OutOfFuel {A}.

(** ** Builtins *)

(** [max(iterable)]: [None] stands for the [ValueError] on an empty one. *)
Definition py_max (l : list nat) : option nat :=
  match l with
  | [] => None
  | x :: xs => Some (fold_left Nat.max xs x)
  end.

(** [itertools.zip_longest(a, b)] on two sequences that are not modified
    while they are consumed. *)
Fixpoint zip_rest_r {A B : Type} (l2 : list B) : list (option A * option B) :=
  match l2 with
  | [] => []
  | y :: l2' => (None, Some y) :: zip_rest_r l2'
  end.

Fixpoint zip_longest {A B : Type} (l1 : list A) (l2 : list B)
  : list (option A * option B) :=
  match l1 with
  | [] => zip_rest_r l2
  | x :: l1' =>
      match l2 with
      | [] => (Some x, None) :: zip_longest l1' []
      | y :: l2' => (Some x, Some y) :: zip_longest l1' l2'
      end
  end.

(** [list.pop(i)] without the popped element: the list with position [i]
    taken out. *)
Fixpoint remove_nth {A : Type} (i : nat) (l : list A) : list A :=
  match l, i with
  | [], _ => []
  | _ :: l', 0 => l'
  | x :: l', S i' => x :: remove_nth i' l'
  end.

(** In-place replacement of position [i]; out of range nothing changes
    (the model only writes positions it has just read). *)
Fixpoint set_nth {A : Type} (i : nat) (x : A) (l : list A) : list A :=
  match l, i with
  | [], _ => []
  | _ :: l', 0 => x :: l'
  | y :: l', S i' => y :: set_nth i' x l'
  end.

(** ** Calls that change an object in place

    A method call changes its object in place and may raise: it maps the
    object to a result and the object as the call leaves it. *)
Definition M (S A : Type) : Type := S -> result A * S.

Definition ret {S A : Type} (a : A) : M S A := fun self => (Ok a, self).

Definition raise {S A : Type} (e : exn) : M S A := fun self => (Raise e, self).

Definition bind {S A B : Type} (c : M S A) (k : A -> M S B) : M S B :=
  fun self =>
    match c self with
    | (Ok a, self') => k a self'
    | (Raise e, self') => (Raise e, self')
    | (OutOfFuel, self') => (OutOfFuel, self')
    end.

Declare Scope call_scope.
Delimit Scope call_scope with call.
Notation "x <- c ;; k" := (bind c (fun x => k))
  (at level 61, c at next level, right associativity) : call_scope.
Notation "c ;; k" := (bind c (fun _ => k))
  (at level 61, right associativity) : call_scope.

(** [for x in l: f(x)] *)
Fixpoint for_each {S A : Type} (l : list A) (f : A -> M S unit) : M S unit :=
  match l with
  | [] => ret tt
  | x :: l' => bind (f x) (fun _ => for_each l' f)
  end.

(** The fill value of [zip_longest] is [None]. *)
Definition fill (d : option pyval) : pyval :=
  match d with Some v => v | None => PNone end.

(** ** The tree primitive *)

Module Tree.

(** The tag tree ([tempy.elements], [tempy.tags]) is not part of the
    sources at hand; section 6 of the specification gives its interface:
    create a node of a tag kind, append children or leaf values in order,
    remove a node from its parent, query the children, their count and
    the is-empty status, clear the content.

    Two readings of the widgets' code go with it.  A node has a length,
    the number of its children ([len(self.body)], [map(len, self.body)]),
    and Python takes the truth value of an object that has a length from
    it: used as a condition ([not self.body], [not t_row], [not t_cell])
    a tag without children is false, like [None].  Iterating a node walks
    its [childs] list by position, as iterating a Python list does: a
    child appended while the loop runs is met later, and removing a child
    takes it out of that list in place. *)

(** Modelled from the spec: a tag kind of [tempy.tags], known by its
    class name. *)
Inductive tag_class : Type := TagClass (name : string).

Definition tag_name (c : tag_class) : string :=
  match c with TagClass n => n end.

Definition tag_eqb (a b : tag_class) : bool :=
  String.eqb (tag_name a) (tag_name b).

Definition Table := TagClass "Table".
Definition Tbody := TagClass "Tbody".
Definition Thead := TagClass "Thead".
Definition Tfoot := TagClass "Tfoot".
Definition Caption := TagClass "Caption".
Definition Tr := TagClass "Tr".
Definition Td := TagClass "Td".
Definition Th := TagClass "Th".
Definition Li := TagClass "Li".
Definition Ul := TagClass "Ul".
Definition Ol := TagClass "Ol".

(** Modelled from the spec: a node of the tree; what a node owns is a
    leaf value or a tag with its ordered children ([widgets.py] reads
    [t_cell.childs] as a list). *)
Inductive node : Type :=
| Leaf (v : pyval)
| Tag (cls : tag_class) (childs : list node).

(** Modelled from the spec: [cls()], a new node without content. *)
Definition new (cls : tag_class) : node := Tag cls [].

(** Modelled from the spec: [n.childs], the ordered children. *)
Definition childs (n : node) : list node :=
  match n with
  | Leaf _ => []
  | Tag _ cs => cs
  end.

(** Modelled from the spec: [len(n)], the number of children. *)
Definition len (n : node) : nat := length (childs n).

(** Modelled from the spec: [n.is_empty], no content. *)
Definition is_empty (n : node) : bool :=
  match childs n with [] => true | _ => false end.

(** Modelled from the spec: [n.empty()], clear the content. *)
Definition empty (n : node) : node :=
  match n with
  | Leaf v => Leaf v
  | Tag cls _ => Tag cls []
  end.

(** Modelled from the spec: a node as a condition.  Section 6 has the
    count of a node's children queried, which [widgets.py] does with
    [len]; the truth value follows the length, so a tag is true exactly
    when it owns children.  A leaf value has its own truth value. *)
Definition truth (n : node) : bool :=
  match n with
  | Leaf v => truthy v
  | Tag _ [] => false
  | Tag _ (_ :: _) => true
  end.

(** [not t] where [t] is a node or the fill value [None] of
    [zip_longest]. *)
Definition not_node (t : option node) : bool :=
  match t with
  | Some n => negb (truth n)
  | None => true
  end.

(** The absent value, [None]. *)
Definition is_absent (n : node) : bool :=
  match n with Leaf PNone => true | _ => false end.

(** Modelled from the spec: [n(child, ...)], append the given children in
    order; the absent value is no content (section 3: a value may be
    "None/absent") and is not appended. *)
Definition call (n : node) (args : list node) : node :=
  match n with
  | Leaf v => Leaf v
  | Tag cls cs => Tag cls (cs ++ filter (fun a => negb (is_absent a)) args)
  end.

End Tree.

(** ** TempyTable *)

Module TempyTable.
Import Tree.

(** The table node: its ordered children and the attributes the widget
    binds to some of them.  An attribute holds a reference to a child,
    here the child's position in [childs] (the widget only ever appends
    to the table's own children, so positions are stable); [None] is an
    attribute that is unset ([body] starts as Python's [None]). *)
Record t : Type := mk {
  childs : list node;
  body : option nat;
  header : option nat;
  footer : option nat;
  caption : option nat
}.

(** [Table()] before the widget's own initialisation. *)
Definition fresh : t := mk [] None None None None.

Local Open Scope call_scope.

(** The child a reference points to. *)
Definition deref (self : t) (i : nat) : node := nth i (childs self) (Leaf PNone).

(** The table after the child at a reference has changed in place. *)
Definition set_child (i : nat) (n : node) (self : t) : t :=
  mk (set_nth i n (childs self)) (body self) (header self) (footer self)
     (caption self).

(** [getattr(self, name)], [hasattr(self, name)] and
    [setattr(self, name, child)] for the attributes the widget uses. *)
Definition getattr (self : t) (name : string) : option nat :=
  if name =? "body" then body self
  else if name =? "header" then header self
  else if name =? "footer" then footer self
  else if name =? "caption" then caption self
  else None.

Definition hasattr (self : t) (name : string) : bool :=
  match getattr self name with Some _ => true | None => false end.

Definition setattr (name : string) (i : nat) (self : t) : t :=
  if name =? "body" then
    mk (childs self) (Some i) (header self) (footer self) (caption self)
  else if name =? "header" then
    mk (childs self) (body self) (Some i) (footer self) (caption self)
  else if name =? "footer" then
    mk (childs self) (body self) (header self) (Some i) (caption self)
  else if name =? "caption" then
    mk (childs self) (body self) (header self) (footer self) (Some i)
  else self.

(** Modelled from the spec: [child.append_to(self)], the child becomes the
    last child of the table; the value is the reference to it. *)
Definition append_to_self (child : node) : M t nat :=
  fun self =>
    (Ok (length (childs self)),
     mk (childs self ++ [child]) (body self) (header self) (footer self)
        (caption self)).

(** Modelled from the spec: [self(name=child)], the child is appended and
    bound to the attribute of that name (the page widget's docstring has
    named children accessible as attributes). *)
Definition call_named (name : string) (child : node) : M t unit :=
  i <- append_to_self child ;;
  fun self => (Ok tt, setattr name i self).

(** [self.body]'s rows. *)
Definition body_rows (self : t) : list node :=
  match body self with
  | Some b => Tree.childs (deref self b)
  | None => []
  end.

(** The body with other rows, the body node staying the one it is. *)
Definition set_body_rows (rows : list node) (self : t) : t :=
  match body self with
  | Some b =>
      match deref self b with
      | Tag cls _ => set_child b (Tag cls rows) self
      | Leaf _ => self
      end
  | None => self
  end.

(** [self.body(child, ...)]; calling [None] is a [TypeError]. *)
Definition body_call (args : list node) : M t unit :=
  fun self =>
    match body self with
    | Some b => (Ok tt, set_child b (Tree.call (deref self b) args) self)
    | None => (Raise TypeError, self)
    end.

(** The argument of [_check_row_size]: a row, or (when [len] fails on it
    with [TypeError]) the argument taken as the length itself, a number
    or [None]. *)
Inductive row_arg : Type :=
| RowData (row : list pyval)
| RowLen (n : nat)
| RowNone.

(** [_check_row_size]: [max] over the cell counts of the body rows against
    the length asked for; comparing the maximum with [None] is a
    [TypeError]. *)
Definition _check_row_size (row : row_arg) : M t unit :=
  fun self =>
    let row_lenght :=
      match row with
      | RowData r => Some (length r)
      | RowLen n => Some n
      | RowNone => None
      end in
    match body self with
    | None => (Raise TypeError, self)
    | Some _ =>
        match py_max (map len (body_rows self)) with
        | None => (Raise ValueError, self)
        | Some m =>
            match row_lenght with
            | None => (Raise TypeError, self)
            | Some row_lenght =>
                if (m <? row_lenght)%nat then
                  (Raise (WidgetDataError
                            "The given data have more columns than the table."),
                   self)
                else (Ok tt, self)
            end
        end
    end.

(** [Tr()(Td()(cell) for cell in row_data)] *)
Definition new_row (inner_tag : tag_class) (row_data : list pyval) : node :=
  call (new Tr) (map (fun cell => call (new inner_tag) [Leaf cell]) row_data).

(** [add_row(row_data, resize_x)] *)
Definition add_row (row_data : list pyval) (resize_x : bool) : M t unit :=
  (if negb resize_x then _check_row_size (RowData row_data) else ret tt) ;;
  body_call [new_row Td row_data].

(** [self.add_row(d_row)] as the row loop calls it, where [d_row] is a
    data row or the fill value [None] of [zip_longest]: the size check
    takes [None] for the length, and [None] cannot be iterated for the
    cells. *)
Definition add_row_fill (d_row : option (list pyval)) : M t unit :=
  match d_row with
  | Some row_data => add_row row_data false
  | None => _check_row_size RowNone ;; raise TypeError
  end.

(** [AdjustableList(d_row).ljust(n, None)]: the row padded on the right
    with [None] up to [n] values.
    Modelled from the spec: [tempy.tools] is not part of the sources at
    hand; section 4.1 has the shorter row padded with absent values up to
    the maximum cell count of the input rows. *)
Definition ljust (d_row : list pyval) (n : nat) : list pyval :=
  d_row ++ repeat PNone (n - length d_row).

(** The body of the cell loop once [t_cell] is a cell: [d_cell] is a leaf
    value, so [[d_cell] == t_cell.childs] holds exactly when the cell owns
    that one leaf. *)
Definition same_content (d_cell : pyval) (t_cell : node) : bool :=
  match Tree.childs t_cell with
  | [Leaf v] => pyval_eqb d_cell v
  | _ => false
  end.

(** The cell after one turn of the cell loop. *)
Definition merge_cell (force : bool) (t_cell : node) (d_cell : pyval) : node :=
  if same_content d_cell t_cell then t_cell
  else
    let t_cell :=
      if force && negb (is_empty t_cell) then empty t_cell else t_cell in
    if is_empty t_cell && negb (is_None d_cell) then call t_cell [Leaf d_cell]
    else t_cell.

(** [for t_cell, d_cell in zip_longest(t_row, d_row)]: the row's cells as
    the loop leaves them.  The row is consumed through a cursor into its
    live list of cells: [cell_it] is the next position to read, [None]
    once the row's iterator has reported its end (zip_longest then never
    asks it again); [d_it] is what is left of the data row.  When
    [t_cell] is false as a condition (the fill value [None], or a cell
    without content) and [resize_x] holds, a new cell is appended to the
    row and takes the value; the cursor reaches it later.  Without
    [resize_x], reading [t_cell.childs] of the fill value raises.  The
    loop need not end: [fuel] bounds its steps. *)
Fixpoint merge_cells (fuel : nat) (resize_x force : bool)
    (cell_it : option nat) (d_it : list pyval) (cells : list node)
  : result unit * list node :=
  match fuel with
  | 0 => (OutOfFuel, cells)
  | S fuel' =>
      let t_next :=
        match cell_it with
        | Some j =>
            match nth_error cells j with
            | Some t_cell => Some (j, t_cell)
            | None => None
            end
        | None => None
        end in
      match t_next, d_it with
      | None, [] => (Ok tt, cells)
      | _, _ =>
          let d_cell := fill (hd_error d_it) in
          let cell_it' := option_map (fun p => S (fst p)) t_next in
          let (cells, t_cell) :=
            if not_node (option_map snd t_next) && resize_x then
              (cells ++ [new Td], Some (length cells, new Td))
            else (cells, t_next) in
          match t_cell with
          | Some (j, t_cell) =>
              merge_cells fuel' resize_x force cell_it' (tl d_it)
                (set_nth j (merge_cell force t_cell d_cell) cells)
          | None => (Raise AttributeError, cells)
          end
      end
  end.

(** The step budget of the cell loop on a row: a loop that ends reads
    every cell and every value once, and appends at most one cell per
    value (see [merge_cells_budget]). *)
Definition merge_cells_fuel (cells : list node) (d_row : list pyval) : nat :=
  S (length cells + 2 * length d_row).

(** [not l] for a list. *)
Definition is_nil {A : Type} (l : list A) : bool :=
  match l with [] => true | _ => false end.

(** [not d_row]: the fill value [None] or an empty row. *)
Definition not_row (d_row : option (list pyval)) : bool :=
  match d_row with
  | None => true
  | Some r => is_nil r
  end.

(** The [else] branch of the row loop: normalise, then merge the cells of
    the row at position [i].  With [d_row] the fill value [None] both
    [AdjustableList(None)] and [zip_longest(t_row, None)] are a
    [TypeError]. *)
Definition merge_row (resize_x force normalize : bool) (max_data_x : nat)
    (i : nat) (t_row : node) (d_row : option (list pyval)) : M t unit :=
  fun self =>
    match d_row with
    | None => (Raise TypeError, self)
    | Some d_row =>
        let d_row := if normalize then ljust d_row max_data_x else d_row in
        let (r, cells) :=
          merge_cells (merge_cells_fuel (Tree.childs t_row) d_row)
            resize_x force (Some 0) d_row (Tree.childs t_row) in
        let t_row' :=
          match t_row with
          | Tag cls _ => Tag cls cells
          | Leaf v => Leaf v
          end in
        (r, set_body_rows (set_nth i t_row' (body_rows self)) self)
    end.

(** [for t_row, d_row in zip_longest(self.body, data)].  The body is
    consumed through a cursor into its live child list: [body_it] is the
    next position to read, [None] once the body's iterator has reported
    its end (zip_longest then never asks it again); [data_it] is what is
    left of the data.  Rows removed by the loop shift the later rows
    under the cursor, and a row that [add_row] appends while the cursor
    is live is met later.  [t_row] is false as a condition when it is
    the fill value [None] or a row without cells. *)
Fixpoint populate_rows (fuel : nat) (resize_x force normalize : bool)
    (max_data_x : nat) (body_it : option nat) (data_it : list (list pyval))
    : M t unit :=
  fun self =>
    match fuel with
    | 0 => (OutOfFuel, self)
    | S fuel' =>
        let t_next :=
          match body_it with
          | Some i =>
              match nth_error (body_rows self) i with
              | Some t_row => Some (i, t_row)
              | None => None
              end
          | None => None
          end in
        match t_next, data_it with
        | None, [] => (Ok tt, self)
        | _, _ =>
            let d_row := hd_error data_it in
            let body_it' := option_map (fun p => S (fst p)) t_next in
            (match t_next with
             | Some (i, t_row) =>
                 if negb (truth t_row) then add_row_fill d_row
                 else if not_row d_row && force then
                   (fun self =>
                      (Ok tt,
                       set_body_rows (remove_nth i (body_rows self)) self))
                 else
                   merge_row resize_x force normalize max_data_x i t_row d_row
             | None => add_row_fill d_row
             end ;;
             populate_rows fuel' resize_x force normalize max_data_x
               body_it' (tl data_it)) self
        end
    end.

(** The step budget of the row loop: every step reads a body row or a
    data row, and appends at most one row per data row (see
    [populate_rows_budget]). *)
Definition populate_rows_fuel (self : t) (data : list (list pyval)) : nat :=
  S (length (body_rows self) + 2 * length data).

(** [populate(data, resize_x, force, normalize)]; [not self.body] holds
    of a body that is [None] and of a body without rows. *)
Definition populate (data : option (list (list pyval)))
    (resize_x force normalize : bool) : M t unit :=
  fun self =>
    match data with
    | None => (Ok tt, self)
    | Some data =>
        if not_node (option_map (deref self) (body self)) then
          (call_named "body" (new Tbody) ;;
           for_each data (fun row => add_row row true)) self
        else
          match py_max (map (@length pyval) data) with
          | None => (Raise ValueError, self)
          | Some max_data_x =>
              ((if negb resize_x then _check_row_size (RowLen max_data_x)
                else ret tt) ;;
               populate_rows (populate_rows_fuel self data)
                 resize_x force normalize max_data_x (Some 0) data) self
          end
    end.

(** [_make_table_part(part, data)]; unpacking the [None] that [get]
    returns for another part name is a [TypeError]. *)
Definition _make_table_part (part : string) (data : list pyval) : M t unit :=
  let tags :=
    if part =? "header" then Some (Thead, Th)
    else if part =? "footer" then Some (Tfoot, Td)
    else None in
  match tags with
  | None => raise TypeError
  | Some (part_tag, inner_tag) =>
      part_instance <- append_to_self (new part_tag) ;;
      (fun self =>
         (Ok tt,
          if hasattr self part then self else setattr part part_instance self)) ;;
      fun self =>
        (Ok tt,
         set_child part_instance
           (call (deref self part_instance) [new_row inner_tag data]) self)
  end.

(** [make_header], [make_footer] and [make_caption] *)
Definition make_header (head : list pyval) : M t unit :=
  _make_table_part "header" head.

Definition make_footer (footer : list pyval) : M t unit :=
  _make_table_part "footer" footer.

Definition make_caption (caption_text : pyval) : M t unit :=
  (fun self =>
     if hasattr self "caption" then (Ok tt, self)
     else call_named "caption" (new Caption) self) ;;
  fun self =>
    match caption self with
    | Some c =>
        (Ok tt,
         set_child c (call (empty (deref self c)) [Leaf caption_text]) self)
    | None => (Raise AttributeError, self)
    end.

(** [data.pop(0)] and [data.pop()] *)
Definition pop_first {A : Type} (l : list A) : option (A * list A) :=
  match l with
  | [] => None
  | x :: l' => Some (x, l')
  end.

Definition pop_last {A : Type} (l : list A) : option (A * list A) :=
  match rev l with
  | [] => None
  | x :: r => Some (x, rev r)
  end.

(** [TempyTable(rows, cols, data, caption, head, foot)].  The value is the
    [data] list as the constructor leaves it: [pop] takes the header and
    footer rows out of the list it is given. *)
Definition __init__ (rows cols : nat) (data : option (list (list pyval)))
    (caption_text : pyval) (head foot : bool) : M t (list (list pyval)) :=
  let data :=
    match data with
    | Some (r :: d) => r :: d
    | _ =>
        repeat (repeat PNone cols)
          (rows + (Nat.b2n head + Nat.b2n foot))
    end in
  (if truthy caption_text then make_caption caption_text else ret tt) ;;
  data <-
    (if head then
       match pop_first data with
       | Some (h, data') => make_header h ;; ret data'
       | None => raise IndexError
       end
     else ret data) ;;
  data <-
    (if foot then
       match pop_last data with
       | Some (f, data') => make_footer f ;; ret data'
       | None => raise IndexError
       end
     else ret data) ;;
  populate (Some data) true true true ;;
  ret data.

(** The table a constructor call builds. *)
Definition TempyTable (rows cols : nat) (data : option (list (list pyval)))
    (caption_text : pyval) (head foot : bool)
  : result (list (list pyval)) * t :=
  __init__ rows cols data caption_text head foot fresh.

(** Python's index into a sequence of [n] elements: a negative index
    counts from the end; [None] is the [IndexError]. *)
Definition py_index (n : nat) (i : Z) : option nat :=
  if (0 <=? i)%Z && (i <? Z.of_nat n)%Z then Some (Z.to_nat i)
  else if (- Z.of_nat n <=? i)%Z && (i <? 0)%Z then
    Some (Z.to_nat (Z.of_nat n + i))
  else None.

(** [[cell.childs[0] for cell in row]]: the first child of every cell; a
    cell without content has none. *)
Fixpoint first_childs (cells : list node) : result (list node) :=
  match cells with
  | [] => Ok []
  | cell :: cells' =>
      match cell with
      | Leaf _ => Raise AttributeError
      | Tag _ [] => Raise IndexError
      | Tag _ (v :: _) =>
          match first_childs cells' with
          | Ok vs => Ok (v :: vs)
          | r => r
          end
      end
  end.

(** What [pop_row] returns: the row node, or the contents of its cells. *)
Inductive popped_row : Type :=
| RowTag (row : node)
| RowValues (values : list node).

(** [pop_row(idr, tags)].  [self.body.pop(idr)] takes the row out of the
    body before the contents of its cells are read.
    Modelled from the spec: [pop] of the tree primitive removes the child
    at a position, given as Python indexes a list, and returns it (4.1:
    pop-row-by-index, default the last row). *)
Definition pop_row (idr : option Z) (tags : bool) : M t popped_row :=
  fun self =>
    match body self with
    | None =>
        (Raise (match idr with Some _ => AttributeError | None => TypeError end),
         self)
    | Some _ =>
        let idr :=
          match idr with
          | Some i => i
          | None => (Z.of_nat (length (body_rows self)) - 1)%Z
          end in
        match py_index (length (body_rows self)) idr with
        | None => (Raise IndexError, self)
        | Some i =>
            match nth_error (body_rows self) i with
            | None => (Raise IndexError, self)
            | Some row =>
                let self' :=
                  set_body_rows (remove_nth i (body_rows self)) self in
                if tags then (Ok (RowTag row), self')
                else
                  match first_childs (Tree.childs row) with
                  | Ok values => (Ok (RowValues values), self')
                  | Raise e => (Raise e, self')
                  | OutOfFuel => (OutOfFuel, self')
                  end
            end
        end
    end.

(** [pop_cell(idy, idx, tags)]: [self.body[idy]] is the row, indexed as a
    list is; the cell is taken out of it before its content is read. *)
Definition pop_cell (idy idx : option Z) (tags : bool) : M t node :=
  fun self =>
    match body self with
    | None => (Raise TypeError, self)
    | Some _ =>
        let rows := body_rows self in
        let idy :=
          match idy with
          | Some i => i
          | None => (Z.of_nat (length rows) - 1)%Z
          end in
        match py_index (length rows) idy with
        | None => (Raise IndexError, self)
        | Some iy =>
            match nth_error rows iy with
            | None => (Raise IndexError, self)
            | Some row =>
                let cells := Tree.childs row in
                let idx :=
                  match idx with
                  | Some i => i
                  | None => (Z.of_nat (length cells) - 1)%Z
                  end in
                match py_index (length cells) idx with
                | None => (Raise IndexError, self)
                | Some ix =>
                    match nth_error cells ix with
                    | None => (Raise IndexError, self)
                    | Some cell =>
                        let row' :=
                          match row with
                          | Tag cls _ => Tag cls (remove_nth ix cells)
                          | Leaf v => Leaf v
                          end in
                        let self' := set_body_rows (set_nth iy row' rows) self in
                        if tags then (Ok cell, self')
                        else
                          match cell with
                          | Tag _ (v :: _) => (Ok v, self')
                          | Tag _ [] => (Raise IndexError, self')
                          | Leaf _ => (Raise AttributeError, self')
                          end
                    end
                end
            end
        end
    end.

End TempyTable.

(** ** TempyListMeta and the TempyList factory *)

Module TempyList.
Import Tree.
Local Open Scope call_scope.

(** The structures a list is built from, and the flavor tokens: [None], a
    string, an integer, a tag class, a flat sequence of leaves, or a dict
    from leaves to structures.  A dict is kept as its items in insertion
    order. *)
Inductive pyobj : Type :=
| ONone
| OStr (s : string)
| OInt (z : Z)
| OClass (c : tag_class)
| OList (l : list pyval)
| ODict (d : list (pyval * pyobj)).

(** Python truth value of a structure ([if submenu:], [typ or Ul]). *)
Definition obj_truthy (o : pyobj) : bool :=
  match o with
  | ONone => false
  | OStr s => negb (s =? "")
  | OInt z => negb (Z.eqb z 0)
  | OClass _ => true
  | OList l => negb (TempyTable.is_nil l)
  | ODict d => negb (TempyTable.is_nil d)
  end.

(** [d[k] = v]: an existing key keeps its place and takes the new value;
    a new key goes last. *)
Fixpoint dict_set (k : pyval) (v : pyobj) (d : list (pyval * pyobj))
  : list (pyval * pyobj) :=
  match d with
  | [] => [(k, v)]
  | (k', v') :: d' =>
      if pyval_eqb k k' then (k', v) :: d' else (k', v') :: dict_set k v d'
  end.

(** [dict(pairs)] *)
Definition dict (pairs : list (pyval * pyobj)) : list (pyval * pyobj) :=
  fold_left (fun d p => dict_set (fst p) (snd p) d) pairs [].

(** [d.pop(k)]: the value and the dict without the key, [None] for the
    [KeyError]. *)
Fixpoint dict_pop (k : pyval) (d : list (pyval * pyobj))
  : option (pyobj * list (pyval * pyobj)) :=
  match d with
  | [] => None
  | (k', v') :: d' =>
      if pyval_eqb k k' then Some (v', d')
      else
        match dict_pop k d' with
        | Some (v, d'') => Some (v, (k', v') :: d'')
        | None => None
        end
  end.

(** [dict(zip_longest(struct, [None]))] for a flat sequence. *)
Definition dict_of_flat (l : list pyval) : list (pyval * pyobj) :=
  dict (map (fun p => (fill (fst p), ONone)) (zip_longest l [PNone])).

(** Nesting depth of a structure: the number of list levels it asks for. *)
Fixpoint depth (o : pyobj) : nat :=
  match o with
  | ODict d =>
      S ((fix depth_items (d : list (pyval * pyobj)) : nat :=
            match d with
            | [] => 0
            | (_, v) :: d' => Nat.max (depth v) (depth_items d')
            end) d)
  | _ => 1
  end.

Section Factory.

(** [getattr(tags, name)]: the attribute of that name of the module
    [tempy.tags], a tag class or any other object (the module's
    [__name__] is a string); the module itself is not part of the sources
    at hand, so the lookup is a parameter ([None] is the
    [AttributeError]). *)
Variable tags_getattr : string -> option pyobj.

(** [TempyList.__new__], the [try] block: [typ = struct.pop('_typ')]; on a
    structure that is no dict, or a dict without the key, [pop] raises one
    of the caught exceptions and [typ] stays. *)
Definition pop_typ (typ struct : pyobj) : pyobj * pyobj :=
  match struct with
  | ODict d =>
      match dict_pop (PStr "_typ") d with
      | Some (v, d') => (v, ODict d')
      | None => (typ, struct)
      end
  | _ => (typ, struct)
  end.

(** [TempyList.__new__], from [isinstance(typ, str)] to [typ.__name__]:
    the tag class of the list.  A string is replaced by the attribute of
    that name of the tags module, whatever it is; what [typ or Ul] then
    yields is taken for a class, and a true token that is no class has
    no [__name__]. *)
Definition resolve (typ : pyobj) : result tag_class :=
  let looked_up :=
    match typ with
    | OStr s =>
        match tags_getattr s with
        | Some attr => Ok attr
        | None => Raise (WidgetError "TempyList type not expected.")
        end
    | _ => Ok typ
    end in
  match looked_up with
  | Ok typ =>
      match (if obj_truthy typ then typ else OClass Ul) with
      | OClass c => Ok c
      | _ => Raise AttributeError
      end
  | Raise e => Raise e
  | OutOfFuel => OutOfFuel
  end.

(** [str(type(struct))], which the error message of [populate] is
    formatted with; a tag class is taken to be a plain class, of type
    [type]. *)
Definition type_str (struct : pyobj) : string :=
  match struct with
  | OStr _ => "<class 'str'>"
  | OInt _ => "<class 'int'>"
  | OClass _ => "<class 'type'>"
  | ONone => "<class 'NoneType'>"
  | OList _ => "<class 'list'>"
  | ODict _ => "<class 'dict'>"
  end.

(** [TempyListMeta.populate]; [self_typ] is [self._typ] and [TempyList]
    the factory the method calls for a sub-list. *)
Definition populate (TempyList : pyobj -> pyobj -> result node)
    (self_typ : tag_class) (struct : pyobj) : M node unit :=
  match struct with
  | ONone => ret tt
  | _ =>
      let struct :=
        match struct with
        | OList l => ODict (dict_of_flat l)
        | _ => struct
        end in
      match struct with
      | ODict d =>
          for_each d (fun entry =>
            let (k, submenu) := entry : pyval * pyobj in
            let item := call (new Li) [Leaf k] in
            fun self =>
              let at_item := len self in
              let self := call self [item] in
              if obj_truthy submenu then
                match TempyList (OClass self_typ) submenu with
                | Ok sub =>
                    (Ok tt,
                     match self with
                     | Tag cls cs => Tag cls (set_nth at_item (call item [sub]) cs)
                     | Leaf v => Leaf v
                     end)
                | Raise e => (Raise e, self)
                | OutOfFuel => (OutOfFuel, self)
                end
              else (Ok tt, self))
      | _ =>
          raise (WidgetDataError
                   ("List Imput not managed, expected (dict, list), got "
                    ++ type_str struct))
      end
  end.

(** [TempyList(typ, struct)]: [__new__] and the [__init__] of the class it
    makes, with a bound on the nesting of factory calls. *)
Fixpoint TempyList_fuel (fuel : nat) (typ struct : pyobj) : result node :=
  match fuel with
  | 0 => OutOfFuel
  | S fuel' =>
      let (typ, struct) := pop_typ typ struct in
      match resolve typ with
      | Ok typ =>
          match populate (TempyList_fuel fuel') typ struct (new typ) with
          | (Ok _, self) => Ok self
          | (Raise e, _) => Raise e
          | (OutOfFuel, _) => OutOfFuel
          end
      | Raise e => Raise e
      | OutOfFuel => OutOfFuel
      end
  end.

Definition TempyList (typ struct : pyobj) : result node :=
  TempyList_fuel (depth struct) typ struct.

End Factory.

(** A tags module to run the factory on at concrete tokens: it has the
    classes [widgets.py] itself takes from [tempy.tags] (its imports, the
    page widget's [tags.Head] and the like, and [Ol] of the list
    docstring) and the [__name__] every module has, and nothing else.
    [tempy.tags] has more classes; the theorems hold for every lookup. *)
Definition some_tags (name : string) : option pyobj :=
  if name =? "__name__" then Some (OStr "tempy.tags")
  else if existsb (String.eqb name)
            ["Html"; "Table"; "Tbody"; "Thead"; "Caption"; "Tfoot"; "Td";
             "Tr"; "Th"; "Li"; "Ul"; "Ol"; "Head"; "Meta"; "Title"; "Body"]
  then Some (OClass (TagClass name))
  else None.

End TempyList.

(** * Notions the statements use *)

Module TableNotions.
Import Tree TempyTable.
Local Open Scope call_scope.

(** The table [populate] builds from three rows of one value. *)
Definition three_rows : t :=
  snd (populate (Some [[PStr "a"]; [PStr "b"]; [PStr "c"]]) true true true
         fresh).

(** A cell made for a value: the value as the cell's only content, no
    content for [None]. *)
Definition cell_of (inner_tag : tag_class) (v : pyval) : node :=
  Tag inner_tag (if is_None v then [] else [Leaf v]).

(** The leaf content of a cell, [None] for a cell without content. *)
Definition cell_content (cell : node) : pyval :=
  match Tree.childs cell with
  | Leaf v :: _ => v
  | _ => PNone
  end.

(** An attribute after [if not hasattr: setattr]. *)
Definition or_else (o : option nat) (i : nat) : option nat :=
  match o with
  | Some x => Some x
  | None => Some i
  end.

(** The children the caption step of the constructor leaves. *)
Definition caption_part (caption_text : pyval) : list node :=
  if truthy caption_text then [Tag Caption [Leaf caption_text]] else [].

(** The number of nodes of class [cls] in a sequence of nodes. *)
Definition count_tag (cls : tag_class) (l : list node) : nat :=
  length (filter (fun n =>
                    match n with
                    | Tag c _ => tag_eqb c cls
                    | Leaf _ => false
                    end) l).

(** A row of cells that own one string each, and a table whose only
    child is a body of such rows. *)
Definition row_of (l : list string) : node :=
  Tag Tr (map (fun s => Tag Td [Leaf (PStr s)]) l).

Definition table_of (rows : list (list string)) : t :=
  mk [Tag Tbody (map row_of rows)] (Some 0) None None None.

(** A grid whose rows differ in length. *)
Definition ragged_grid : list (list pyval) :=
  [[PStr "a"]; [PStr "b"; PStr "c"]].

(** A row with other cells, the row node staying the one it is. *)
Definition with_cells (t_row : node) (cells : list node) : node :=
  match t_row with
  | Tag cls _ => Tag cls cells
  | Leaf v => Leaf v
  end.

(** A tag that owns children: a row with cells, a cell with content. *)
Definition filled (n : node) : bool :=
  match n with
  | Tag _ (_ :: _) => true
  | _ => false
  end.

(** Rows the row loop merges cell by cell: each is a tag that owns
    cells, so the loop does not take it for missing, and, where
    [resize_x] lets the cell loop put a new cell in the place of one
    without content, each cell is a tag that owns content. *)
Definition mergeable (resize_x : bool) (rows : list node) : Prop :=
  Forall (fun r =>
            filled r = true
            /\ (resize_x = true
                -> Forall (fun c => filled c = true) (Tree.childs r)))
    rows.

(** A grid is full up to width [m] for the rows of a body: every data row
    has [m] values, none of them [None], and no body row has more than
    [m] cells. *)
Definition full_grid (m : nat) (rows : list node) (data : list (list pyval))
  : Prop :=
  Forall (fun d_row => length d_row = m /\ Forall (fun v => v <> PNone) d_row)
    data
  /\ Forall (fun r => len r <= m) rows.

(** The iterator of a list has nothing left. *)
Definition used_up {A : Type} (it : option nat) (l : list A) : Prop :=
  match it with
  | Some j => nth_error l j = None
  | None => True
  end.

(** What the cell loop has ahead of it: the cells of the row not yet
    read and, twice, the values not yet read. *)
Definition cells_ahead (cell_it : option nat) (d : list pyval)
    (cells : list node) : nat :=
  match cell_it with
  | Some j => length cells - j
  | None => 0
  end + 2 * length d.

(** What the row loop has ahead of it. *)
Definition rows_ahead (body_it : option nat) (data : list (list pyval))
    (self : t) : nat :=
  match body_it with
  | Some i => length (body_rows self) - i
  | None => 0
  end + 2 * length data.

(** The cells left of the pairs of [zip_longest]. *)
Definition present {A : Type} (l : list (option A * option pyval)) : list A :=
  flat_map (fun p => match fst p with Some c => [c] | None => [] end) l.

(** The cell loop in closed form, over the pairs [zip_longest] makes of a
    row's cells and a data row, for a row of which the loop takes no
    cell for missing (every cell is true as a condition, or [resize_x]
    is unset): each cell is merged with its value; where the cells are
    used up, a new cell is made for each value left when [resize_x]
    holds, and reading the missing cell raises otherwise. *)
Fixpoint merge_cells_zip (resize_x force : bool)
    (pairs : list (option node * option pyval)) : result unit * list node :=
  match pairs with
  | [] => (Ok tt, [])
  | (t_cell, d_cell) :: rest =>
      let t_cell :=
        match t_cell with
        | Some c => Some c
        | None => if resize_x then Some (new Td) else None
        end in
      match t_cell with
      | None => (Raise AttributeError, present rest)
      | Some c =>
          let (r, cells) := merge_cells_zip resize_x force rest in
          (r, merge_cell force c (fill d_cell) :: cells)
      end
  end.

(** The row loop in closed form for body rows and data rows that pair up
    one to one, each row being merged by [merge_cells_zip]: every row
    takes the cells its data row is merged into, up to the first row
    whose merge raises. *)
Fixpoint merge_rows (resize_x force normalize : bool) (max_data_x : nat)
    (rows : list node) (data : list (list pyval)) : result unit * list node :=
  match rows, data with
  | t_row :: rows', d_row :: data' =>
      let d_row := if normalize then ljust d_row max_data_x else d_row in
      let (r, cells) :=
        merge_cells_zip resize_x force
          (zip_longest (Tree.childs t_row) d_row) in
      match r with
      | Ok _ =>
          let (r', rows'') :=
            merge_rows resize_x force normalize max_data_x rows' data' in
          (r', with_cells t_row cells :: rows'')
      | _ => (r, with_cells t_row cells :: rows')
      end
  | _, _ => (Ok tt, rows)
  end.

(** The table's [body] attribute refers to the child at position [b], a
    node of class [cls] that owns [rows]. *)
Definition body_is (self : t) (b : nat) (cls : tag_class) (rows : list node)
  : Prop :=
  body self = Some b /\ nth_error (childs self) b = Some (Tag cls rows).



(** A node that is a tag, not a leaf value. *)
Definition is_tag (n : node) : Prop :=
  match n with
  | Tag _ _ => True
  | Leaf _ => False
  end.

(** Two states of a table that differ at most in the child at position
    [b]: the same attributes, as many children, the same child at every
    other position. *)
Definition same_but (b : nat) (self self' : t) : Prop :=
  body self' = body self /\ header self' = header self
  /\ footer self' = footer self /\ caption self' = caption self
  /\ length (childs self') = length (childs self)
  /\ forall i, i <> b -> nth_error (childs self') i = nth_error (childs self) i.

(** A row of [cols] cells without content. *)
Definition blank_row (inner_tag : tag_class) (cols : nat) : node :=
  Tag Tr (repeat (Tag inner_tag []) cols).

(** A part that is there when its flag is set. *)
Definition part_if (flag : bool) (part : node) : list node :=
  if flag then [part] else [].

End TableNotions.

Module ListNotions.
Import Tree TempyList TableNotions.

(** An item made for a key: [Li()(k)]. *)
Definition item_of (k : pyval) : node := cell_of Li k.

(** A dict entry without sub-structure. *)
Definition no_sub (k : pyval) : pyval * pyobj := (k, ONone).

(** The elements of a sequence in the order of their first occurrence,
    without those already [seen]. *)
Fixpoint distinct_from (seen l : list pyval) : list pyval :=
  match l with
  | [] => []
  | x :: l' =>
      if existsb (pyval_eqb x) seen then distinct_from seen l'
      else x :: distinct_from (seen ++ [x]) l'
  end.

(** The distinct elements of a sequence in the order of their first
    occurrence. *)
Definition distinct (l : list pyval) : list pyval := distinct_from [] l.

(** The structure [{"a": None, "b": ["x", "y"]}]. *)
Definition nested_struct : pyobj :=
  ODict [(PStr "a", ONone); (PStr "b", OList [PStr "x"; PStr "y"])].



(** The override a structure embeds: the value under ["_typ"] of a
    mapping that has the key. *)
Definition embedded_typ (struct : pyobj) : option pyobj :=
  match struct with
  | ODict d => option_map fst (dict_pop (PStr "_typ") d)
  | _ => None
  end.

(** No mapping of the structure, at any depth, has the key ["_typ"]. *)
Fixpoint no_typ (o : pyobj) : bool :=
  match o with
  | ODict d =>
      (fix no_typ_items (d : list (pyval * pyobj)) : bool :=
         match d with
         | [] => true
         | (k, v) :: d' =>
             negb (pyval_eqb (PStr "_typ") k) && no_typ v && no_typ_items d'
         end) d
  | _ => true
  end.

(** Every tag of the tree is of an allowed class. *)
Fixpoint only_tags (allowed : tag_class -> bool) (n : node) : bool :=
  match n with
  | Leaf _ => true
  | Tag cls cs => allowed cls && forallb (only_tags allowed) cs
  end.

(** The classes of a list of flavor [c]: the flavor and the item tag. *)
Definition list_tags (c : tag_class) (cls : tag_class) : bool :=
  tag_eqb cls Li || tag_eqb cls c.

End ListNotions.

(** * Properties *)

(** ** Builtins *)

Lemma fold_max_le (l : list nat) (a : nat) : a <= fold_left Nat.max l a.
Proof.
  revert a. induction l as [|x l IH]; intros a; simpl; [lia|].
  specialize (IH (Nat.max a x)). lia.
Qed.

Lemma fold_max_In (l : list nat) (a x : nat) :
  In x l -> x <= fold_left Nat.max l a.
Proof.
  revert a. induction l as [|y l IH]; intros a Hin; simpl in *; [easy|].
  destruct Hin as [->|Hin].
  - pose proof (fold_max_le l (Nat.max a x)). lia.
  - now apply IH.
Qed.

(** [max] is an upper bound of a sequence that has an element, and is
    defined on it. *)
Lemma py_max_In (l : list nat) (x : nat) :
  In x l -> exists m, py_max l = Some m /\ x <= m.
Proof.
  destruct l as [|a l]; [easy|]. intros [->|Hin]; simpl; eexists; split;
    try reflexivity.
  - apply fold_max_le.
  - now apply fold_max_In.
Qed.

Lemma set_nth_length {A : Type} (i : nat) (x : A) (l : list A) :
  length (set_nth i x l) = length l.
Proof.
  revert i. induction l as [|y l IH]; intros [|i]; simpl; auto.
Qed.

Lemma set_nth_app_last {A : Type} (l : list A) (x y : A) :
  set_nth (length l) y (l ++ [x]) = l ++ [y].
Proof. induction l as [|z l IH]; simpl; [reflexivity | now rewrite IH]. Qed.

Lemma nth_set_nth {A : Type} (i : nat) (x d : A) (l : list A) :
  i < length l -> nth i (set_nth i x l) d = x.
Proof.
  revert i. induction l as [|y l IH]; intros [|i] Hi; simpl in *; try lia.
  - reflexivity.
  - apply IH. lia.
Qed.

Lemma set_nth_same {A : Type} (i : nat) (x : A) (l : list A) :
  nth_error l i = Some x -> set_nth i x l = l.
Proof.
  revert i. induction l as [|y l IH]; intros [|i] H; simpl in *;
    try discriminate.
  - now injection H as ->.
  - now rewrite IH.
Qed.

Lemma set_nth_set_nth {A : Type} (i : nat) (x y : A) (l : list A) :
  set_nth i y (set_nth i x l) = set_nth i y l.
Proof.
  revert i. induction l as [|z l IH]; intros [|i]; simpl; auto.
  now rewrite IH.
Qed.

Lemma nth_error_set_nth {A : Type} (i : nat) (x y : A) (l : list A) :
  nth_error l i = Some y -> nth_error (set_nth i x l) i = Some x.
Proof.
  revert i. induction l as [|z l IH]; intros [|i] H; simpl in *;
    try discriminate; auto.
Qed.

Lemma nth_error_set_nth_other {A : Type} (i j : nat) (x : A) (l : list A) :
  i <> j -> nth_error (set_nth j x l) i = nth_error l i.
Proof.
  revert i j. induction l as [|y l IH]; intros [|i] [|j] H; simpl; auto;
    try congruence.
Qed.

Lemma set_nth_middle {A : Type} (pre post : list A) (x y : A) :
  set_nth (length pre) y (pre ++ x :: post) = pre ++ y :: post.
Proof. induction pre as [|z pre IH]; simpl; [reflexivity | now rewrite IH]. Qed.

Lemma nth_error_middle {A : Type} (pre post : list A) (x : A) :
  nth_error (pre ++ x :: post) (length pre) = Some x.
Proof. induction pre as [|z pre IH]; simpl; auto. Qed.

Lemma remove_nth_middle {A : Type} (pre post : list A) (x : A) :
  remove_nth (length pre) (pre ++ x :: post) = pre ++ post.
Proof. induction pre as [|z pre IH]; simpl; [reflexivity | now rewrite IH]. Qed.

Lemma remove_nth_length {A : Type} (i : nat) (l : list A) :
  length (remove_nth i l) <= length l.
Proof.
  revert i. induction l as [|y l IH]; intros [|i]; simpl; auto.
  specialize (IH i). lia.
Qed.

(** A loop whose steps all end ends. *)
Lemma for_each_total {S A : Type} (f : A -> M S unit) (l : list A) :
  (forall x self, fst (f x self) <> OutOfFuel) ->
  forall self, fst (for_each l f self) <> OutOfFuel.
Proof.
  intros Hf. induction l as [|x l IH]; intros self; cbn [for_each].
  - discriminate.
  - unfold bind. specialize (Hf x self).
    destruct (f x self) as [[a|e|] s1]; cbn [fst] in *;
      [apply IH|discriminate|congruence].
Qed.

Lemma for_each_total_In {S A : Type} (f : A -> M S unit) (l : list A) :
  (forall x, In x l -> forall self, fst (f x self) <> OutOfFuel) ->
  forall self, fst (for_each l f self) <> OutOfFuel.
Proof.
  induction l as [|x l IH]; intros Hf self; cbn [for_each].
  - discriminate.
  - unfold bind. pose proof (Hf x (or_introl eq_refl) self) as Hx.
    destruct (f x self) as [[a|e|] s1]; cbn [fst] in *;
      [|discriminate|congruence].
    apply IH. intros y Hy. apply Hf. now right.
Qed.

(** ** The table reconciler *)

Module TableProps.
Import Tree TempyTable TableNotions.
Local Open Scope call_scope.

(** *** The loops, step by step *)

Lemma body_rows_set_body_rows (rows : list node) (self : t) :
  body_rows (set_body_rows rows self) = rows
  \/ body_rows (set_body_rows rows self) = [].
Proof.
  unfold set_body_rows, body_rows. destruct (body self) as [b|] eqn:Hb.
  - destruct (deref self b) as [v|cls cs] eqn:Hd.
    + right. rewrite Hb, Hd. reflexivity.
    + left. unfold set_child. cbn [body]. rewrite Hb. unfold deref. cbn [childs].
      rewrite nth_set_nth; [reflexivity|].
      destruct (Nat.lt_ge_cases b (length (childs self))) as [Hlt|Hge]; [assumption|].
      unfold deref in Hd. rewrite nth_overflow in Hd by assumption. discriminate.
  - right. rewrite Hb. reflexivity.
Qed.

Lemma body_rows_set_body_rows_length (rows : list node) (self : t) :
  length (body_rows (set_body_rows rows self)) <= length rows.
Proof.
  destruct (body_rows_set_body_rows rows self) as [-> | ->]; simpl; lia.
Qed.

(** One turn of the cell loop at a cell of the row. *)
Lemma merge_cells_at (fuel : nat) (resize_x force : bool) (j : nat)
    (d : list pyval) (cells : list node) (c : node) :
  nth_error cells j = Some c ->
  merge_cells (S fuel) resize_x force (Some j) d cells
  = merge_cells fuel resize_x force (Some (S j)) (tl d)
      (if negb (truth c) && resize_x then
         cells ++ [merge_cell force (new Td) (fill (hd_error d))]
       else set_nth j (merge_cell force c (fill (hd_error d))) cells).
Proof.
  intros Hc. cbn [merge_cells]. rewrite Hc. cbn [option_map snd fst not_node].
  destruct (negb (truth c) && resize_x); destruct d;
    rewrite ?set_nth_app_last; reflexivity.
Qed.

(** One turn of the cell loop once the row's cells are used up. *)
Lemma merge_cells_past (fuel : nat) (resize_x force : bool)
    (cell_it : option nat) (d : list pyval) (cells : list node) :
  used_up cell_it cells ->
  merge_cells (S fuel) resize_x force cell_it d cells
  = match d with
    | [] => (Ok tt, cells)
    | v :: d' =>
        if resize_x then
          merge_cells fuel resize_x force None d'
            (cells ++ [merge_cell force (new Td) v])
        else (Raise AttributeError, cells)
    end.
Proof.
  intros Hu. cbn [merge_cells].
  assert (E : match cell_it with
              | Some j =>
                  match nth_error cells j with
                  | Some t_cell => Some (j, t_cell)
                  | None => None
                  end
              | None => None
              end = None).
  { destruct cell_it as [j|]; [|reflexivity]. cbn in Hu. now rewrite Hu. }
  rewrite E. destruct d as [|v d']; [reflexivity|].
  cbn [option_map not_node andb hd_error fill tl].
  destruct resize_x; rewrite ?set_nth_app_last; reflexivity.
Qed.

Lemma merge_cell_new_None (force : bool) :
  merge_cell force (new Td) PNone = new Td.
Proof. destruct force; reflexivity. Qed.

(** The cell loop never ends once the data row is used up and a cell
    without content lies ahead: a new cell without content is appended
    each time the cursor meets one. *)
Lemma merge_cells_never (force : bool) (fuel : nat) :
  forall (j k : nat) (cells : list node) (c : node),
    j <= k ->
    nth_error cells k = Some c ->
    truth c = false ->
    fst (merge_cells fuel true force (Some j) [] cells) = OutOfFuel.
Proof.
  induction fuel as [|fuel IH]; intros j k cells c Hjk Hk Hc; [reflexivity|].
  assert (Hlen : k < length cells) by (apply nth_error_Some; congruence).
  destruct (nth_error cells j) as [cj|] eqn:Hj.
  2:{ apply nth_error_None in Hj. lia. }
  rewrite (merge_cells_at _ _ _ _ _ _ _ Hj). cbn [tl hd_error fill].
  rewrite andb_true_r, merge_cell_new_None.
  destruct (truth cj) eqn:Hcj; cbn [negb].
  - assert (j <> k) by (intros ->; congruence).
    apply (IH (S j) k _ c); [lia| |assumption].
    rewrite nth_error_set_nth_other by lia. assumption.
  - apply (IH (S j) (length cells) _ (new Td)); [lia| |reflexivity].
    rewrite nth_error_app2, Nat.sub_diag by lia. reflexivity.
Qed.

(** The budget of the cell loop is exact: a cell loop that uses up a
    budget above what it has ahead of it uses up every budget, that is,
    it never ends. *)
Lemma merge_cells_budget (resize_x force : bool) (fuel : nat) :
  forall (cell_it : option nat) (d : list pyval) (cells : list node),
    cells_ahead cell_it d cells < fuel ->
    fst (merge_cells fuel resize_x force cell_it d cells) = OutOfFuel ->
    forall fuel',
      fst (merge_cells fuel' resize_x force cell_it d cells) = OutOfFuel.
Proof.
  induction fuel as [|fuel IH]; intros cell_it d cells Hf Hout fuel'; [lia|].
  destruct fuel' as [|fuel']; [reflexivity|].
  assert (Hcase : (exists j c, cell_it = Some j /\ nth_error cells j = Some c)
                  \/ used_up cell_it cells).
  { destruct cell_it as [j|]; [|now right].
    destruct (nth_error cells j) as [c|] eqn:Hj; [left; eauto|now right]. }
  destruct Hcase as [(j & c & -> & Hj)|Hu].
  - assert (Hlen : j < length cells) by (apply nth_error_Some; congruence).
    rewrite (merge_cells_at _ _ _ _ _ _ _ Hj) in Hout.
    rewrite (merge_cells_at _ _ _ _ _ _ _ Hj).
    unfold cells_ahead in Hf.
    destruct (negb (truth c) && resize_x) eqn:Hb.
    + apply andb_prop in Hb. destruct Hb as [Hc ->].
      apply negb_true_iff in Hc.
      destruct d as [|v d].
      * cbn [tl hd_error fill]. rewrite merge_cell_new_None.
        apply (merge_cells_never force fuel' (S j) (length cells) _ (new Td));
          [lia| |reflexivity].
        rewrite nth_error_app2, Nat.sub_diag by lia. reflexivity.
      * apply IH; [|assumption]. unfold cells_ahead.
        rewrite length_app. cbn [length tl] in *. lia.
    + apply IH; [|assumption]. unfold cells_ahead.
      rewrite set_nth_length. destruct d; cbn [length tl] in *; lia.
  - rewrite (merge_cells_past _ _ _ _ _ _ Hu) in Hout.
    rewrite (merge_cells_past _ _ _ _ _ _ Hu).
    destruct d as [|v d]; [discriminate|].
    destruct resize_x; [|discriminate].
    apply IH; [|assumption]. unfold cells_ahead in *.
    cbn [length] in *. lia.
Qed.

(** One turn of the row loop at a row of the body. *)
Lemma populate_rows_at (fuel : nat) (resize_x force normalize : bool)
    (m i : nat) (data : list (list pyval)) (self : t) (t_row : node) :
  nth_error (body_rows self) i = Some t_row ->
  populate_rows (S fuel) resize_x force normalize m (Some i) data self
  = ((if negb (truth t_row) then add_row_fill (hd_error data)
      else if not_row (hd_error data) && force then
        (fun self =>
           (Ok tt, set_body_rows (remove_nth i (body_rows self)) self))
      else merge_row resize_x force normalize m i t_row (hd_error data)) ;;
     populate_rows fuel resize_x force normalize m (Some (S i)) (tl data))
      self.
Proof.
  intros Hi. cbn [populate_rows]. rewrite Hi. now destruct data.
Qed.

(** One turn of the row loop once the body's rows are used up. *)
Lemma populate_rows_past (fuel : nat) (resize_x force normalize : bool)
    (m : nat) (body_it : option nat) (data : list (list pyval)) (self : t) :
  used_up body_it (body_rows self) ->
  populate_rows (S fuel) resize_x force normalize m body_it data self
  = match data with
    | [] => (Ok tt, self)
    | d_row :: data' =>
        (add_row d_row false ;;
         populate_rows fuel resize_x force normalize m None data') self
    end.
Proof.
  intros Hu. cbn [populate_rows].
  assert (E : match body_it with
              | Some i =>
                  match nth_error (body_rows self) i with
                  | Some t_row => Some (i, t_row)
                  | None => None
                  end
              | None => None
              end = None).
  { destruct body_it as [i|]; [|reflexivity]. cbn in Hu. now rewrite Hu. }
  rewrite E. now destruct data.
Qed.

Lemma check_row_size_state (row : row_arg) (self : t) :
  snd (_check_row_size row self) = self.
Proof.
  unfold _check_row_size. destruct (body self); [|reflexivity].
  destruct (py_max _); [|reflexivity].
  destruct row; try reflexivity; now destruct (_ <? _)%nat.
Qed.

Lemma check_row_size_ends (row : row_arg) (self : t) :
  fst (_check_row_size row self) <> OutOfFuel.
Proof.
  unfold _check_row_size. destruct (body self); [|discriminate].
  destruct (py_max _); [|discriminate].
  destruct row; try discriminate; now destruct (_ <? _)%nat.
Qed.

Lemma body_call_rows (args : list node) (self : t) :
  length (body_rows (snd (body_call args self)))
  <= length (body_rows self) + length args.
Proof.
  unfold body_call. destruct (body self) as [b|] eqn:Hb; cbn [snd]; [|lia].
  unfold body_rows at 2. rewrite Hb.
  destruct (deref self b) as [v|cls cs] eqn:Hd.
  - cbn [call]. unfold body_rows, set_child. cbn [body]. rewrite Hb.
    unfold deref in *. cbn [childs].
    destruct (Nat.lt_ge_cases b (length (childs self))) as [Hlt|Hge].
    + rewrite nth_set_nth by assumption. cbn. lia.
    + rewrite nth_overflow by (rewrite set_nth_length; assumption). cbn. lia.
  - cbn [call Tree.childs].
    pose proof (body_rows_set_body_rows_length
                  (cs ++ filter (fun a => negb (is_absent a)) args) self) as H.
    unfold set_body_rows in H. rewrite Hb, Hd in H.
    rewrite length_app in H.
    pose proof (filter_length_le (fun a => negb (is_absent a)) args). lia.
Qed.

Lemma add_row_ends (row_data : list pyval) (resize_x : bool) (self : t) :
  fst (add_row row_data resize_x self) <> OutOfFuel.
Proof.
  unfold add_row, bind. destruct resize_x; cbn [negb].
  - unfold ret, body_call. destruct (body self); discriminate.
  - pose proof (check_row_size_ends (RowData row_data) self) as Hc.
    destruct (_check_row_size (RowData row_data) self) as [[a|e|] s1];
      cbn [fst] in *; [|discriminate|congruence].
    unfold body_call. destruct (body s1); discriminate.
Qed.

Lemma add_row_rows (row_data : list pyval) (resize_x : bool) (self : t) :
  length (body_rows (snd (add_row row_data resize_x self)))
  <= S (length (body_rows self)).
Proof.
  unfold add_row, bind.
  assert (H : forall s1, length (body_rows (snd (body_call [new_row Td row_data] s1)))
                         <= S (length (body_rows s1))).
  { intros s1. pose proof (body_call_rows [new_row Td row_data] s1).
    cbn [length] in *. lia. }
  destruct resize_x; cbn [negb].
  - unfold ret. apply H.
  - pose proof (check_row_size_state (RowData row_data) self) as Hs.
    destruct (_check_row_size (RowData row_data) self) as [[a|e|] s1];
      cbn [snd] in *; subst s1; try lia. apply H.
Qed.

Lemma add_row_fill_ends (d_row : option (list pyval)) (self : t) :
  fst (add_row_fill d_row self) <> OutOfFuel.
Proof.
  destruct d_row as [row|]; cbn [add_row_fill]; [apply add_row_ends|].
  unfold bind. pose proof (check_row_size_ends RowNone self) as Hc.
  destruct (_check_row_size RowNone self) as [[a|e|] s1]; cbn [fst] in *;
    [discriminate|discriminate|congruence].
Qed.

(** [add_row] for the fill value does not return. *)
Lemma add_row_fill_None (self : t) :
  exists e, add_row_fill None self = (Raise e, self).
Proof.
  cbn [add_row_fill]. unfold bind.
  pose proof (check_row_size_state RowNone self) as Hs.
  pose proof (check_row_size_ends RowNone self) as Hc.
  destruct (_check_row_size RowNone self) as [[a|e|] s1]; cbn [fst snd] in *;
    subst s1; [eexists; reflexivity|eexists; reflexivity|congruence].
Qed.

Lemma add_row_fill_rows (d_row : option (list pyval)) (self : t) :
  length (body_rows (snd (add_row_fill d_row self)))
  <= S (length (body_rows self)).
Proof.
  destruct d_row as [row|]; [apply add_row_rows|].
  destruct (add_row_fill_None self) as (e & ->). cbn [snd]. lia.
Qed.

(** The budget of the row loop is exact: the row loop itself always ends,
    so a row loop that uses up a budget above what it has ahead of it
    has met a cell loop that never ends, and uses up every budget. *)
Lemma populate_rows_budget (resize_x force normalize : bool) (m : nat)
    (fuel : nat) :
  forall (body_it : option nat) (data : list (list pyval)) (self : t),
    rows_ahead body_it data self < fuel ->
    fst (populate_rows fuel resize_x force normalize m body_it data self)
    = OutOfFuel ->
    forall fuel',
      fst (populate_rows fuel' resize_x force normalize m body_it data self)
      = OutOfFuel.
Proof.
  induction fuel as [|fuel IH]; intros body_it data self Hf Hout fuel'; [lia|].
  destruct fuel' as [|fuel']; [reflexivity|].
  assert (Hstep : forall (c : M t unit) it,
            (forall s1, fst (c self) = Ok tt -> snd (c self) = s1 ->
                        rows_ahead it (tl data) s1 < fuel) ->
            fst ((c ;; populate_rows fuel resize_x force normalize m it
                         (tl data)) self) = OutOfFuel ->
            fst ((c ;; populate_rows fuel' resize_x force normalize m it
                         (tl data)) self) = OutOfFuel).
  { intros c it Hc. unfold bind.
    destruct (c self) as [[[]|e|] s1]; cbn [fst snd] in *; auto. }
  assert (Hcase : (exists i t_row, body_it = Some i
                                   /\ nth_error (body_rows self) i = Some t_row)
                  \/ used_up body_it (body_rows self)).
  { destruct body_it as [i|]; [|now right].
    destruct (nth_error (body_rows self) i) as [r|] eqn:Hi;
      [left; eauto|now right]. }
  destruct Hcase as [(i & t_row & -> & Hi)|Hu].
  - assert (Hlen : i < length (body_rows self))
      by (apply nth_error_Some; congruence).
    rewrite (populate_rows_at _ _ _ _ _ _ _ _ _ Hi) in Hout.
    rewrite (populate_rows_at _ _ _ _ _ _ _ _ _ Hi).
    revert Hout. apply Hstep. intros s1 Hok <-. unfold rows_ahead in *.
    destruct (truth t_row); cbn [negb] in *.
    + destruct (not_row (hd_error data) && force).
      * cbn [snd].
        pose proof (body_rows_set_body_rows_length
                      (remove_nth i (body_rows self)) self).
        pose proof (remove_nth_length i (body_rows self)).
        destruct data; cbn [length tl] in *; lia.
      * unfold merge_row in *. destruct (hd_error data) as [d_row|] eqn:Hd;
          [|discriminate].
        destruct (merge_cells _ resize_x force (Some 0) _ _) as [r cells].
        cbn [snd].
        pose proof (body_rows_set_body_rows_length
                      (set_nth i match t_row with
                                 | Leaf v => Leaf v
                                 | Tag cls _ => Tag cls cells
                                 end (body_rows self)) self) as Hl.
        rewrite set_nth_length in Hl.
        destruct data; cbn [length tl] in *; lia.
    + pose proof (add_row_fill_rows (hd_error data) self).
      destruct data as [|d data]; cbn [hd_error length tl] in *.
      * destruct (add_row_fill_None self) as (e & E). rewrite E in Hok.
        discriminate.
      * lia.
  - rewrite (populate_rows_past _ _ _ _ _ _ _ _ Hu) in Hout.
    rewrite (populate_rows_past _ _ _ _ _ _ _ _ Hu).
    destruct data as [|d data]; [discriminate|].
    change data with (tl (d :: data)). revert Hout. apply Hstep.
    intros s1 _ _. unfold rows_ahead in *. cbn [length tl] in *. lia.
Qed.

(** *** Guards *)

(** A body that owns rows is true as a condition. *)
Lemma body_with_rows (self : t) (b : nat) :
  body self = Some b ->
  body_rows self <> [] ->
  not_node (option_map (deref self) (body self)) = false.
Proof.
  intros Hb Hr. unfold body_rows in Hr. rewrite Hb in *.
  cbn [option_map not_node].
  destruct (deref self b) as [v|cls [|r rs]]; cbn in *; congruence.
Qed.

(** C10. Reconciling a table that owns a non-empty body with a present
    but empty grid is no no-op and raises no data-shape error: whatever
    the options, [max] over the empty sequence of row lengths fails with
    the unguarded [ValueError], the table being left as it was. *)
Theorem populate_empty_grid_ValueError
    (self : t) (b : nat) (resize_x force normalize : bool) :
  body self = Some b ->
  body_rows self <> [] ->
  populate (Some []) resize_x force normalize self = (Raise ValueError, self).
Proof.
  intros Hb Hr. unfold populate. rewrite (body_with_rows self b Hb Hr).
  reflexivity.
Qed.

Lemma populate_empty_grid_ValueError_witness :
  populate (Some []) false true true three_rows
  = (Raise ValueError, three_rows).
Proof.
  apply (populate_empty_grid_ValueError three_rows 0); [reflexivity|].
  vm_compute. discriminate.
Defined.

(** C2. Width guard: on a table whose body has maximum row width [w],
    reconciling without column resizing a grid that has a row wider than
    [w] raises the data-shape error, and the table is exactly what it was
    before the call. *)
Theorem populate_width_guard
    (self : t) (b w : nat) (data : list (list pyval)) (row : list pyval)
    (force normalize : bool) :
  body self = Some b ->
  py_max (map len (body_rows self)) = Some w ->
  In row data ->
  w < length row ->
  populate (Some data) false force normalize self
  = (Raise (WidgetDataError
              "The given data have more columns than the table."), self).
Proof.
  intros Hb Hw Hin Hlt. unfold populate.
  rewrite (body_with_rows self b Hb)
    by (intros E; rewrite E in Hw; discriminate).
  destruct (py_max_In (map (@length pyval) data) (length row))
    as (m & Hm & Hle); [now apply in_map|].
  rewrite Hm. cbn [negb]. unfold bind, _check_row_size.
  rewrite Hb, Hw.
  destruct (Nat.ltb_spec w m) as [_|Hge]; [reflexivity | lia].
Qed.

Lemma populate_width_guard_witness :
  populate (Some [[PStr "x"]; [PStr "y"; PStr "z"]]) false true true three_rows
  = (Raise (WidgetDataError
              "The given data have more columns than the table."),
     three_rows).
Proof.
  apply (populate_width_guard three_rows 0 1 _ [PStr "y"; PStr "z"]).
  - reflexivity.
  - reflexivity.
  - simpl. auto.
  - simpl. lia.
Defined.

(** *** Building the body of a table that has none *)

Lemma call_new_leaf (inner_tag : tag_class) (v : pyval) :
  call (new inner_tag) [Leaf v] = cell_of inner_tag v.
Proof. destruct v; reflexivity. Qed.

Lemma cell_content_cell_of (inner_tag : tag_class) (v : pyval) :
  cell_content (cell_of inner_tag v) = v.
Proof. destruct v; reflexivity. Qed.

Lemma filter_tags_id (l : list pyval) (g : pyval -> node) :
  (forall v, is_absent (g v) = false) ->
  filter (fun a => negb (is_absent a)) (map g l) = map g l.
Proof.
  intros Hg. induction l as [|v l IH]; simpl; [reflexivity|].
  rewrite Hg, IH. reflexivity.
Qed.

Lemma new_row_eq (inner_tag : tag_class) (row_data : list pyval) :
  new_row inner_tag row_data = Tag Tr (map (cell_of inner_tag) row_data).
Proof.
  unfold new_row, new, call. simpl.
  rewrite filter_tags_id by (intros v; destruct v; reflexivity).
  f_equal. apply map_ext. intros v. apply (call_new_leaf inner_tag v).
Qed.

Lemma deref_app_last (cs : list node) (n : node) bo h f c :
  deref (mk (cs ++ [n]) bo h f c) (length cs) = n.
Proof. unfold deref. simpl. apply nth_middle. Qed.

(** Appending rows with [add_row(row, resize_x=True)] to a body that is
    the last child of the table. *)
Lemma for_each_add_row (grid : list (list pyval)) :
  forall (cs rows : list node) (cls : tag_class) (h f c : option nat),
    for_each grid (fun row => add_row row true)
      (mk (cs ++ [Tag cls rows]) (Some (length cs)) h f c)
    = (Ok tt,
       mk (cs ++ [Tag cls (rows ++ map (new_row Td) grid)])
          (Some (length cs)) h f c).
Proof.
  induction grid as [|row grid IH]; intros cs rows cls h f c.
  - simpl. rewrite app_nil_r. reflexivity.
  - cbn [for_each]. unfold bind at 1. unfold add_row at 1. cbn [negb].
    unfold bind at 1, ret at 1, body_call at 1. cbn [body].
    rewrite deref_app_last. unfold set_child. cbn [childs body header footer caption].
    rewrite set_nth_app_last.
    replace (call (Tag cls rows) [new_row Td row])
      with (Tag cls ((rows ++ [new_row Td row]))).
    + rewrite IH. rewrite <- app_assoc. reflexivity.
    + rewrite new_row_eq. reflexivity.
Qed.

(** The empty-body branch of [populate], in closed form: a new body is
    appended to the table, bound to [body], and owns one new row per
    input row. *)
Lemma populate_no_body_eq (self : t) (grid : list (list pyval))
    (resize_x force normalize : bool) :
  body self = None ->
  populate (Some grid) resize_x force normalize self
  = (Ok tt,
     mk (childs self ++ [Tag Tbody (map (new_row Td) grid)])
        (Some (length (childs self))) (header self) (footer self)
        (caption self)).
Proof.
  intros Hb. unfold populate. rewrite Hb.
  unfold bind at 1, call_named, bind at 1, append_to_self.
  unfold setattr. cbn [String.eqb Ascii.eqb Bool.eqb childs body header footer caption].
  exact (for_each_add_row grid (childs self) [] Tbody _ _ _).
Qed.

(** C5. Row-count growth from empty: reconciling a grid of [r] rows of [c]
    values each into a table that owns no body returns normally and
    leaves a body of exactly [r] rows, each of exactly [c] cells, the
    leaf content of cell [(i, j)] being the grid value at [(i, j)]. *)
Theorem populate_grows_from_empty
    (self : t) (grid : list (list pyval)) (r c : nat)
    (resize_x force normalize : bool) :
  body self = None ->
  length grid = r ->
  Forall (fun row => length row = c) grid ->
  fst (populate (Some grid) resize_x force normalize self) = Ok tt /\
  let rows :=
    body_rows (snd (populate (Some grid) resize_x force normalize self)) in
  length rows = r /\
  Forall (fun t_row => len t_row = c) rows /\
  forall i j row v,
    nth_error grid i = Some row ->
    nth_error row j = Some v ->
    exists t_row cell,
      nth_error rows i = Some t_row /\
      nth_error (Tree.childs t_row) j = Some cell /\
      cell_content cell = v.
Proof.
  intros Hb Hr Hc. rewrite (populate_no_body_eq self grid _ _ _ Hb).
  split; [reflexivity|]. cbn [snd]. unfold body_rows. cbn [body].
  rewrite deref_app_last. cbn [Tree.childs].
  split; [now rewrite length_map|]. split.
  - apply Forall_map. revert Hc. apply Forall_impl. intros row Hrow.
    rewrite new_row_eq. unfold len. cbn [Tree.childs].
    now rewrite length_map.
  - intros i j row v Hi Hj.
    exists (new_row Td row), (cell_of Td v). split; [|split].
    + now apply map_nth_error.
    + rewrite new_row_eq. cbn [Tree.childs]. now apply map_nth_error.
    + apply cell_content_cell_of.
Qed.

Lemma populate_grows_from_empty_witness :
  fst (populate (Some [[PStr "a"; PNone]; [PInt 1; PStr "b"]]) false true true
         fresh) = Ok tt /\
  let rows :=
    body_rows (snd (populate (Some [[PStr "a"; PNone]; [PInt 1; PStr "b"]])
                      false true true fresh)) in
  length rows = 2 /\
  Forall (fun t_row => len t_row = 2) rows /\
  forall i j row v,
    nth_error [[PStr "a"; PNone]; [PInt 1; PStr "b"]] i = Some row ->
    nth_error row j = Some v ->
    exists t_row cell,
      nth_error rows i = Some t_row /\
      nth_error (Tree.childs t_row) j = Some cell /\
      cell_content cell = v.
Proof.
  apply (populate_grows_from_empty fresh _ 2 2).
  - reflexivity.
  - reflexivity.
  - repeat constructor.
Defined.

(** *** Header, footer and caption synthesis *)

(** [make_header] in closed form: a new header container with the one row
    of header cells becomes the last child of the table, whatever the
    table already owns; the [header] attribute is bound to it only when
    it was unset. *)
Lemma make_header_eq (head : list pyval) (self : t) :
  make_header head self
  = (Ok tt,
     mk (childs self ++ [Tag Thead [new_row Th head]])
        (body self) (or_else (header self) (length (childs self)))
        (footer self) (caption self)).
Proof.
  unfold make_header, _make_table_part. cbn [String.eqb Ascii.eqb Bool.eqb].
  unfold bind, append_to_self, hasattr, getattr, setattr.
  cbn [String.eqb Ascii.eqb Bool.eqb childs body header footer caption].
  destruct (header self) as [x|]; cbn [or_else];
    unfold set_child; cbn [childs body header footer caption];
    rewrite deref_app_last, set_nth_app_last; rewrite new_row_eq; reflexivity.
Qed.

Lemma make_footer_eq (foot : list pyval) (self : t) :
  make_footer foot self
  = (Ok tt,
     mk (childs self ++ [Tag Tfoot [new_row Td foot]])
        (body self) (header self)
        (or_else (footer self) (length (childs self))) (caption self)).
Proof.
  unfold make_footer, _make_table_part. cbn [String.eqb Ascii.eqb Bool.eqb].
  unfold bind, append_to_self, hasattr, getattr, setattr.
  cbn [String.eqb Ascii.eqb Bool.eqb childs body header footer caption].
  destruct (footer self) as [x|]; cbn [or_else];
    unfold set_child; cbn [childs body header footer caption];
    rewrite deref_app_last, set_nth_app_last; rewrite new_row_eq; reflexivity.
Qed.

(** [make_caption] on a table without caption. *)
Lemma make_caption_new (caption_text : pyval) (self : t) :
  caption self = None ->
  make_caption caption_text self
  = (Ok tt,
     mk (childs self ++ [cell_of Caption caption_text])
        (body self) (header self) (footer self)
        (Some (length (childs self)))).
Proof.
  intros Hc. unfold make_caption, bind, hasattr, getattr.
  cbn [String.eqb Ascii.eqb Bool.eqb]. rewrite Hc.
  unfold call_named, bind, append_to_self, setattr.
  cbn [String.eqb Ascii.eqb Bool.eqb childs body header footer caption].
  unfold set_child. cbn [childs body header footer caption].
  rewrite deref_app_last, set_nth_app_last.
  change (empty (new Caption)) with (new Caption).
  rewrite call_new_leaf. reflexivity.
Qed.

Lemma pop_last_app {A : Type} (l : list A) (x : A) :
  pop_last (l ++ [x]) = Some (x, l).
Proof.
  unfold pop_last. rewrite rev_app_distr. simpl.
  now rewrite rev_involutive.
Qed.

(** C4. Header/footer extraction order: for every grid of at least two
    rows, the constructor with [head] and [foot] set takes the first row
    off the grid for the header and the last row for the footer (both
    are gone from the grid the constructor leaves), and populates the
    body with exactly the rows in between; the table's children come in
    the order caption (when one is given), header, footer, body.  The
    header owns one row of header cells, one per value of the first row
    in order; the footer one row of data cells for the last row; the
    body one row of data cells per row in between, in order; a cell owns
    its value as its only content (no content for [None]). *)
Theorem init_header_footer_body
    (rows cols : nat) (grid : list (list pyval)) (caption_text : pyval) :
  2 <= length grid ->
  exists (h f : list pyval) (mid : list (list pyval)),
    grid = h :: mid ++ [f] /\
    TempyTable rows cols (Some grid) caption_text true true
    = (Ok mid,
       let n := length (caption_part caption_text) in
       mk (caption_part caption_text
           ++ [Tag Thead [Tag Tr (map (cell_of Th) h)];
               Tag Tfoot [Tag Tr (map (cell_of Td) f)];
               Tag Tbody
                 (map (fun row => Tag Tr (map (cell_of Td) row)) mid)])
          (Some (n + 2)) (Some n) (Some (n + 1))
          (if truthy caption_text then Some 0 else None)).
Proof.
  intros Hlen. destruct grid as [|h rest]; [simpl in Hlen; lia|].
  destruct (exists_last (l := rest)) as (mid & f & ->).
  { destruct rest; [simpl in Hlen; lia | discriminate]. }
  exists h, f, mid. split; [reflexivity|].
  unfold TempyTable, __init__, caption_part.
  destruct (truthy caption_text) eqn:Hcap.
  - unfold bind at 1. rewrite make_caption_new by reflexivity.
    assert (Hc : cell_of Caption caption_text = Tag Caption [Leaf caption_text]).
    { destruct caption_text; try reflexivity; discriminate. }
    rewrite Hc. cbn [pop_first]. unfold bind at 1. unfold bind at 1.
    rewrite make_header_eq. unfold ret at 1.
    unfold bind at 1. rewrite pop_last_app. unfold bind at 1.
    rewrite make_footer_eq. unfold ret at 1. unfold bind at 1.
    rewrite populate_no_body_eq by reflexivity.
    cbn [childs body header footer caption fresh or_else length app].
    rewrite !new_row_eq, (map_ext _ _ (new_row_eq Td)). reflexivity.
  - unfold bind at 1, ret at 1. cbn [pop_first].
    unfold bind at 1. unfold bind at 1.
    rewrite make_header_eq. unfold ret at 1.
    unfold bind at 1. rewrite pop_last_app. unfold bind at 1.
    rewrite make_footer_eq. unfold ret at 1. unfold bind at 1.
    rewrite populate_no_body_eq by reflexivity.
    cbn [childs body header footer caption fresh or_else length app].
    rewrite !new_row_eq, (map_ext _ _ (new_row_eq Td)). reflexivity.
Qed.

Lemma init_header_footer_body_witness :
  exists (h f : list pyval) (mid : list (list pyval)),
    [[PStr "h1"; PStr "h2"]; [PStr "r1"; PStr "r2"]; [PStr "f1"; PStr "f2"]]
    = h :: mid ++ [f] /\
    TempyTable 0 0
      (Some [[PStr "h1"; PStr "h2"]; [PStr "r1"; PStr "r2"];
             [PStr "f1"; PStr "f2"]]) PNone true true
    = (Ok mid,
       let n := length (caption_part PNone) in
       mk (caption_part PNone
           ++ [Tag Thead [Tag Tr (map (cell_of Th) h)];
               Tag Tfoot [Tag Tr (map (cell_of Td) f)];
               Tag Tbody
                 (map (fun row => Tag Tr (map (cell_of Td) row)) mid)])
          (Some (n + 2)) (Some n) (Some (n + 1))
          (if truthy PNone then Some 0 else None)).
Proof.
  apply (init_header_footer_body 0 0 _ PNone). simpl. lia.
Defined.

(** Every header synthesis adds one header container to the table's
    children; none is taken away. *)
Lemma make_header_count (head : list pyval) (self : t) :
  count_tag Thead (childs (snd (make_header head self)))
  = S (count_tag Thead (childs self)).
Proof.
  rewrite make_header_eq. cbn [snd childs]. unfold count_tag.
  rewrite filter_app, length_app. simpl. lia.
Qed.

(** C8. Header synthesis invoked twice: the second invocation appends a
    second header container after the first, which stays a child of the
    table with its row; the [header] attribute is still bound to the
    first.  The table then owns two header containers, not at most one. *)
Theorem make_header_twice_keeps_both :
  (make_header [PStr "h"] ;; make_header [PStr "k"]) fresh
  = (Ok tt,
     mk [Tag Thead [Tag Tr [Tag Th [Leaf (PStr "h")]]];
         Tag Thead [Tag Tr [Tag Th [Leaf (PStr "k")]]]]
        None (Some 0) None None)
  /\ count_tag Thead
       (childs (snd ((make_header [PStr "h"] ;; make_header [PStr "k"]) fresh)))
     = 2.
Proof. split; reflexivity. Qed.

(** *** The cell loop in closed form *)

Lemma pyval_eqb_refl (v : pyval) : pyval_eqb v v = true.
Proof. destruct v; simpl; auto using String.eqb_refl, Z.eqb_refl. Qed.

Lemma same_content_cell_of (cls : tag_class) (v : pyval) :
  same_content v (Tag cls [Leaf v]) = true.
Proof. unfold same_content. cbn. apply pyval_eqb_refl. Qed.

(** Merging the same value into a cell a second time changes nothing. *)
Lemma merge_cell_idem (force : bool) (c : node) (v : pyval) :
  merge_cell force (merge_cell force c v) v = merge_cell force c v.
Proof.
  destruct (same_content v c) eqn:Hs.
  - unfold merge_cell. now rewrite Hs, Hs.
  - assert (H : merge_cell force c v = c
                \/ (exists cls, v = PNone /\ merge_cell force c v = Tag cls [])
                \/ (exists cls, v <> PNone /\ merge_cell force c v = Tag cls [Leaf v])).
    { unfold merge_cell. rewrite Hs. destruct c as [w|cls cs].
      - left. destruct force, v; reflexivity.
      - destruct cs as [|x cs]; cbn [is_empty Tree.childs negb andb empty].
        + rewrite andb_false_r. cbn [is_empty Tree.childs andb].
          destruct v; cbn; eauto; right; right; exists cls; split; congruence.
        + destruct force; cbn [andb is_empty Tree.childs]; [|now left].
          destruct v; cbn; eauto; right; right; exists cls; split; congruence. }
    destruct H as [H|[(cls & Hv & H)|(cls & Hv & H)]]; rewrite H.
    + unfold merge_cell in H |- *. rewrite Hs in *. exact H.
    + subst v. destruct force; reflexivity.
    + unfold merge_cell. now rewrite same_content_cell_of.
Qed.

Lemma filled_truth (n : node) : filled n = true -> truth n = true.
Proof. destruct n as [v|cls [|c cs]]; cbn; congruence. Qed.

Lemma present_zip_rest_r (d : list pyval) :
  present (@zip_rest_r node pyval d) = [].
Proof. induction d as [|v d IH]; [reflexivity|exact IH]. Qed.

Lemma merge_cells_fresh (force : bool) (d : list pyval) :
  merge_cells_zip true force (zip_rest_r d)
  = (Ok tt, map (merge_cell force (new Td)) d).
Proof.
  induction d as [|v d IH]; cbn [zip_rest_r merge_cells_zip map]; [reflexivity|].
  rewrite IH. reflexivity.
Qed.

(** The cell loop once the row's cells are used up: a new cell per value
    left with [resize_x], the [AttributeError] at the first value left
    without. *)
Lemma merge_cells_used_up (resize_x force : bool) (d : list pyval) :
  forall (cells : list node) (cell_it : option nat) (fuel : nat),
    used_up cell_it cells ->
    length d < fuel ->
    merge_cells fuel resize_x force cell_it d cells
    = (fst (merge_cells_zip resize_x force (zip_rest_r d)),
       cells ++ snd (merge_cells_zip resize_x force (zip_rest_r d))).
Proof.
  induction d as [|v d IH]; intros cells cell_it fuel Hu Hf;
    (destruct fuel as [|fuel]; [simpl in Hf; lia|]);
    rewrite (merge_cells_past _ _ _ _ _ _ Hu).
  - cbn. now rewrite app_nil_r.
  - cbn [zip_rest_r merge_cells_zip]. destruct resize_x.
    + rewrite (IH _ None fuel I) by (simpl in Hf; lia).
      destruct (merge_cells_zip true force (zip_rest_r d)) as [r cs].
      cbn [fst snd fill]. now rewrite <- app_assoc.
    + cbn [fst snd]. now rewrite present_zip_rest_r, app_nil_r.
Qed.

(** The cell loop from the cell after [pre] on, when it takes none of
    the cells ahead for missing: the closed form over the pairs of
    [zip_longest]. *)
Lemma merge_cells_closed (resize_x force : bool) (post : list node) :
  forall (pre : list node) (d : list pyval) (fuel : nat),
    (resize_x = true -> Forall (fun c => truth c = true) post) ->
    length post + length d < fuel ->
    merge_cells fuel resize_x force (Some (length pre)) d (pre ++ post)
    = (fst (merge_cells_zip resize_x force (zip_longest post d)),
       pre ++ snd (merge_cells_zip resize_x force (zip_longest post d))).
Proof.
  induction post as [|c post IH]; intros pre d fuel Ht Hf.
  - rewrite app_nil_r. cbn [zip_longest].
    apply merge_cells_used_up; [|simpl in Hf; lia].
    cbn. apply nth_error_None. lia.
  - destruct fuel as [|fuel]; [lia|].
    rewrite (merge_cells_at _ _ _ _ _ _ c) by apply nth_error_middle.
    assert (Hc : negb (truth c) && resize_x = false).
    { destruct resize_x; [|apply andb_false_r].
      specialize (Ht eq_refl). inversion Ht as [|x l Hx _]; subst.
      now rewrite Hx. }
    rewrite Hc, set_nth_middle.
    replace (S (length pre))
      with (length (pre ++ [merge_cell force c (fill (hd_error d))]))
      by (rewrite length_app; simpl; lia).
    replace (pre ++ merge_cell force c (fill (hd_error d)) :: post)
      with ((pre ++ [merge_cell force c (fill (hd_error d))]) ++ post)
      by now rewrite <- app_assoc.
    rewrite IH.
    + destruct d as [|v d]; cbn [zip_longest merge_cells_zip tl hd_error];
        destruct (merge_cells_zip resize_x force (zip_longest post _))
          as [r cs]; cbn [fst snd]; now rewrite <- app_assoc.
    + intros ->. specialize (Ht eq_refl). now inversion Ht.
    + destruct d; simpl in *; lia.
Qed.

(** The merge of a row of which the cell loop takes no cell for
    missing. *)
Lemma merge_row_closed (resize_x force normalize : bool) (m i : nat)
    (t_row : node) (d_row : list pyval) (self : t) :
  (resize_x = true -> Forall (fun c => truth c = true) (Tree.childs t_row)) ->
  merge_row resize_x force normalize m i t_row (Some d_row) self
  = (fst (merge_cells_zip resize_x force
            (zip_longest (Tree.childs t_row)
               (if normalize then ljust d_row m else d_row))),
     set_body_rows
       (set_nth i
          (with_cells t_row
             (snd (merge_cells_zip resize_x force
                     (zip_longest (Tree.childs t_row)
                        (if normalize then ljust d_row m else d_row)))))
          (body_rows self)) self).
Proof.
  intros Ht. unfold merge_row.
  rewrite (merge_cells_closed resize_x force (Tree.childs t_row) [] _ _ Ht)
    by (unfold merge_cells_fuel; lia).
  reflexivity.
Qed.

Lemma mergeable_cons (resize_x : bool) (r : node) (rows : list node) :
  mergeable resize_x (r :: rows) ->
  truth r = true
  /\ (resize_x = true -> Forall (fun c => truth c = true) (Tree.childs r))
  /\ mergeable resize_x rows.
Proof.
  intros H. inversion H as [|x l [Hr Hc] Hrest]; subst.
  split; [now apply filled_truth|]. split; [|assumption].
  intros E. specialize (Hc E). revert Hc. apply Forall_impl.
  intros c. apply filled_truth.
Qed.


Lemma merge_cells_merged (resize_x force : bool) (g : pyval -> node)
    (d : list pyval) :
  (forall v, merge_cell force (g v) v = g v) ->
  merge_cells_zip resize_x force (zip_longest (map g d) d) = (Ok tt, map g d).
Proof.
  intros Hg. induction d as [|v d IH]; cbn [map zip_longest merge_cells_zip];
    [reflexivity|].
  rewrite IH. cbn [fill]. now rewrite Hg.
Qed.

(** Merging the same data row into a row a second time changes nothing
    and ends the same way. *)
Lemma merge_cells_idem (resize_x force : bool) (cells : list node) :
  forall (d : list pyval) (r : result unit) (cells' : list node),
    merge_cells_zip resize_x force (zip_longest cells d) = (r, cells') ->
    merge_cells_zip resize_x force (zip_longest cells' d) = (r, cells').
Proof.
  induction cells as [|c cs IH]; intros d r cells' H.
  - cbn [zip_longest] in H. destruct resize_x.
    + rewrite merge_cells_fresh in H. injection H as <- <-.
      apply merge_cells_merged. intros v. apply merge_cell_idem.
    + destruct d as [|v d]; cbn [zip_rest_r merge_cells_zip] in H.
      * injection H as <- <-. reflexivity.
      * rewrite present_zip_rest_r in H. injection H as <- <-.
        cbn [zip_longest zip_rest_r merge_cells_zip].
        now rewrite present_zip_rest_r.
  - destruct d as [|v d]; cbn [zip_longest merge_cells_zip] in H;
      destruct (merge_cells_zip resize_x force (zip_longest cs _))
        as [r1 cs1] eqn:E; injection H as <- <-;
      cbn [zip_longest merge_cells_zip]; rewrite (IH _ _ _ E);
      cbn [fill]; now rewrite merge_cell_idem.
Qed.

Lemma merge_cells_length (force : bool) (cells : list node) :
  forall d, length (snd (merge_cells_zip false force (zip_longest cells d)))
            = length cells.
Proof.
  induction cells as [|c cs IH]; intros d.
  - destruct d as [|v d]; cbn [zip_longest zip_rest_r merge_cells_zip snd];
      [reflexivity|]. now rewrite present_zip_rest_r.
  - destruct d as [|v d]; cbn [zip_longest merge_cells_zip].
    + specialize (IH []).
      destruct (merge_cells_zip false force (zip_longest cs [])) as [r1 cs1].
      cbn [snd length] in *. now rewrite IH.
    + specialize (IH d).
      destruct (merge_cells_zip false force (zip_longest cs d)) as [r1 cs1].
      cbn [snd length] in *. now rewrite IH.
Qed.

(** With column resizing the closed form creates the cells it misses and
    does not raise. *)
Lemma merge_cells_resize (force : bool) (pairs : list (option node * option pyval)) :
  fst (merge_cells_zip true force pairs) = Ok tt.
Proof.
  induction pairs as [|[[c|] d] rest IH]; cbn [merge_cells_zip]; [reflexivity| |];
    destruct (merge_cells_zip true force rest); exact IH.
Qed.

Lemma merge_cells_resize_length (force : bool) (cells : list node) :
  forall d,
    length (snd (merge_cells_zip true force (zip_longest cells d)))
    = Nat.max (length cells) (length d).
Proof.
  induction cells as [|c cs IH]; intros d.
  - cbn [zip_longest]. rewrite merge_cells_fresh. cbn [snd length Nat.max].
    now rewrite length_map.
  - destruct d as [|v d]; cbn [zip_longest merge_cells_zip].
    + specialize (IH []).
      destruct (merge_cells_zip true force (zip_longest cs [])) as [r1 cs1].
      cbn [snd length] in *. rewrite IH. lia.
    + specialize (IH d).
      destruct (merge_cells_zip true force (zip_longest cs d)) as [r1 cs1].
      cbn [snd length] in *. rewrite IH. lia.
Qed.

Lemma merge_cells_short (force : bool) (cells : list node) :
  forall d,
    fst (merge_cells_zip false force (zip_longest cells d))
    = if (length cells <? length d)%nat then Raise AttributeError else Ok tt.
Proof.
  induction cells as [|c cs IH]; intros d.
  - destruct d; reflexivity.
  - destruct d as [|v d]; cbn [zip_longest merge_cells_zip length].
    + specialize (IH []).
      destruct (merge_cells_zip false force (zip_longest cs [])) as [r1 cs1].
      cbn [fst] in *. rewrite IH. reflexivity.
    + specialize (IH d).
      destruct (merge_cells_zip false force (zip_longest cs d)) as [r1 cs1].
      cbn [fst] in *. rewrite IH. reflexivity.
Qed.

(** *** The body and its rows *)

Lemma body_is_deref self b cls rows :
  body_is self b cls rows -> deref self b = Tag cls rows.
Proof. intros [_ H]. unfold deref. now apply nth_error_nth. Qed.

Lemma body_is_rows self b cls rows :
  body_is self b cls rows -> body_rows self = rows.
Proof.
  intros H. unfold body_rows. rewrite (proj1 H), (body_is_deref _ _ _ _ H).
  reflexivity.
Qed.

Lemma set_body_rows_is self b cls rows rows' :
  body_is self b cls rows -> body_is (set_body_rows rows' self) b cls rows'.
Proof.
  intros H. unfold set_body_rows.
  rewrite (proj1 H), (body_is_deref _ _ _ _ H). split; cbn.
  - apply H.
  - eapply nth_error_set_nth. apply H.
Qed.

Lemma set_body_rows_twice self b cls rows r1 r2 :
  body_is self b cls rows ->
  set_body_rows r2 (set_body_rows r1 self) = set_body_rows r2 self.
Proof.
  intros H. pose proof (set_body_rows_is _ _ _ _ r1 H) as H1.
  unfold set_body_rows at 1. rewrite (proj1 H1), (body_is_deref _ _ _ _ H1).
  unfold set_body_rows. rewrite (proj1 H), (body_is_deref _ _ _ _ H).
  unfold set_child. cbn. now rewrite set_nth_set_nth.
Qed.

Lemma set_body_rows_same self b cls rows :
  body_is self b cls rows -> set_body_rows rows self = self.
Proof.
  intros H. unfold set_body_rows.
  rewrite (proj1 H), (body_is_deref _ _ _ _ H). unfold set_child.
  rewrite (set_nth_same _ _ _ (proj2 H)). now destruct self.
Qed.

Lemma body_set_body_rows rows self : body (set_body_rows rows self) = body self.
Proof.
  unfold set_body_rows. destruct (body self) as [b|] eqn:Hb; [|assumption].
  destruct (deref self b); [assumption|]. exact Hb.
Qed.

(** [populate] takes a body with rows for a body, a body without rows
    for none. *)
Lemma body_is_not_node self b cls rows :
  body_is self b cls rows ->
  not_node (option_map (deref self) (body self))
  = match rows with [] => true | _ => false end.
Proof.
  intros H. rewrite (proj1 H). cbn [option_map not_node].
  rewrite (body_is_deref _ _ _ _ H). now destruct rows.
Qed.

(** *** The row loop in closed form *)

(** The row loop while body rows and data rows pair up one to one, from
    the row after [pre] on: the paired rows are merged; unless a merge
    raises, the loop goes on with the data left at the first row of
    [rest]. *)
Lemma populate_rows_paired (resize_x force normalize : bool) (m : nat)
    (rows : list node) :
  forall (pre rest : list node) (data extra : list (list pyval)) (self : t)
         (fuel : nat) (b : nat) (cls : tag_class),
    body_is self b cls (pre ++ rows ++ rest) ->
    length data = length rows ->
    mergeable resize_x rows ->
    (force = true -> Forall (fun d_row => d_row <> []) data) ->
    populate_rows (length rows + fuel) resize_x force normalize m
      (Some (length pre)) (data ++ extra) self
    = match merge_rows resize_x force normalize m rows data with
      | (Ok _, rows') =>
          populate_rows fuel resize_x force normalize m
            (Some (length pre + length rows)) extra
            (set_body_rows (pre ++ rows' ++ rest) self)
      | (r, rows') => (r, set_body_rows (pre ++ rows' ++ rest) self)
      end.
Proof.
  induction rows as [|t_row rows IH];
    intros pre rest data extra self fuel b cls Hb Hl Hm Hne.
  - destruct data; [|discriminate]. cbn [merge_rows length Nat.add app] in *.
    rewrite Nat.add_0_r. now rewrite (set_body_rows_same _ _ _ _ Hb).
  - destruct data as [|d_row data]; [discriminate|].
    cbn [length Nat.add app].
    change ((t_row :: rows) ++ rest) with (t_row :: rows ++ rest) in Hb.
    destruct (mergeable_cons _ _ _ Hm) as (Htr & Hcells & Hm').
    rewrite (populate_rows_at _ _ _ _ _ _ _ _ t_row)
      by (rewrite (body_is_rows _ _ _ _ Hb); apply nth_error_middle).
    rewrite Htr. cbn [negb hd_error tl not_row].
    assert (Hn : TempyTable.is_nil d_row && force = false).
    { destruct force; [|apply andb_false_r].
      specialize (Hne eq_refl). inversion Hne as [|x l Hx _]; subst.
      destruct d_row; [congruence|reflexivity]. }
    rewrite Hn. unfold bind.
    rewrite (merge_row_closed _ _ _ _ _ _ _ _ Hcells).
    rewrite (body_is_rows _ _ _ _ Hb).
    cbn [merge_rows].
    destruct (merge_cells_zip resize_x force
                (zip_longest (Tree.childs t_row)
                   (if normalize then ljust d_row m else d_row)))
      as [r cells] eqn:E. cbn [fst snd].
    rewrite set_nth_middle.
    destruct r as [[]|e|]; try reflexivity.
    assert (Hb1 : body_is
                    (set_body_rows
                       (pre ++ with_cells t_row cells :: rows ++ rest) self)
                    b cls ((pre ++ [with_cells t_row cells]) ++ rows ++ rest)).
    { rewrite <- app_assoc. now apply (set_body_rows_is _ _ _ _ _ Hb). }
    replace (S (length pre)) with (length (pre ++ [with_cells t_row cells]))
      by (rewrite length_app; simpl; lia).
    rewrite (IH _ rest data extra _ fuel b cls Hb1).
    + destruct (merge_rows resize_x force normalize m rows data)
        as [r' rows''].
      rewrite (set_body_rows_twice _ _ _ _ _ _ Hb), <- app_assoc.
      rewrite length_app. cbn [length app].
      replace (length pre + 1 + length rows) with (length pre + S (length rows))
        by lia.
      reflexivity.
    + simpl in Hl. lia.
    + assumption.
    + intros Hforce. specialize (Hne Hforce). now inversion Hne.
Qed.

Lemma childs_with_cells (t_row : node) (cells : list node) (d : list pyval)
    (resize_x force : bool) (r : result unit) :
  merge_cells_zip resize_x force (zip_longest (Tree.childs t_row) d) = (r, cells) ->
  merge_cells_zip resize_x force
    (zip_longest (Tree.childs (with_cells t_row cells)) d) = (r, cells)
  /\ with_cells (with_cells t_row cells) cells = with_cells t_row cells.
Proof.
  intros H. destruct t_row as [v|cls cs]; cbn [with_cells Tree.childs] in *.
  - now split.
  - split; [now apply merge_cells_idem with (cells := cs) | reflexivity].
Qed.

Lemma merge_rows_idem (resize_x force normalize : bool) (m : nat)
    (rows : list node) :
  forall (data : list (list pyval)) (r : result unit) (rows' : list node),
    merge_rows resize_x force normalize m rows data = (r, rows') ->
    merge_rows resize_x force normalize m rows' data = (r, rows').
Proof.
  induction rows as [|t_row rows IH]; intros data r rows' H.
  - cbn [merge_rows] in H. injection H as <- <-. reflexivity.
  - destruct data as [|d_row data].
    + cbn [merge_rows] in H. injection H as <- <-. reflexivity.
    + cbn [merge_rows] in H.
      destruct (merge_cells_zip resize_x force _) as [r1 cells] eqn:E.
      destruct (childs_with_cells _ _ _ _ _ _ E) as [E1 E2].
      destruct r1 as [[]|e|].
      * destruct (merge_rows resize_x force normalize m rows data)
          as [r2 rows2] eqn:E3.
        injection H as <- <-. cbn [merge_rows]. rewrite E1, E2.
        now rewrite (IH _ _ _ E3).
      * injection H as <- <-. cbn [merge_rows]. now rewrite E1, E2.
      * injection H as <- <-. cbn [merge_rows]. now rewrite E1, E2.
Qed.

Lemma merge_rows_length (resize_x force normalize : bool) (m : nat)
    (rows : list node) :
  forall data,
    length (snd (merge_rows resize_x force normalize m rows data))
    = length rows.
Proof.
  induction rows as [|t_row rows IH]; intros data; [reflexivity|].
  destruct data as [|d_row data]; [reflexivity|]. cbn [merge_rows].
  destruct (merge_cells_zip resize_x force _) as [r1 cells].
  destruct r1 as [[]|e|]; try reflexivity.
  specialize (IH data).
  destruct (merge_rows resize_x force normalize m rows data) as [r2 rows2].
  cbn [snd length] in *. now rewrite IH.
Qed.

(** The row loop over body rows and data rows that pair up one to one
    to the end of both. *)
Lemma populate_rows_lockstep (resize_x force normalize : bool) (m : nat)
    (rows : list node) :
  forall (pre : list node) (data : list (list pyval)) (self : t) (fuel : nat)
         (b : nat) (cls : tag_class),
    body_is self b cls (pre ++ rows) ->
    length data = length rows ->
    mergeable resize_x rows ->
    (force = true -> Forall (fun d_row => d_row <> []) data) ->
    length rows < fuel ->
    populate_rows fuel resize_x force normalize m (Some (length pre)) data self
    = (fst (merge_rows resize_x force normalize m rows data),
       set_body_rows
         (pre ++ snd (merge_rows resize_x force normalize m rows data)) self).
Proof.
  intros pre data self fuel b cls Hb Hl Hm Hne Hf.
  replace fuel with (length rows + S (fuel - S (length rows))) by lia.
  rewrite <- (app_nil_r rows) in Hb at 1.
  rewrite <- (app_nil_r data) at 1.
  rewrite (populate_rows_paired _ _ _ _ rows pre [] data [] self _ b cls
             Hb Hl Hm Hne).
  pose proof (merge_rows_length resize_x force normalize m rows data) as Hlen.
  destruct (merge_rows resize_x force normalize m rows data) as [r rows'].
  cbn [fst snd] in *. rewrite app_nil_r.
  destruct r as [[]|e|]; try reflexivity.
  rewrite populate_rows_past; [reflexivity|].
  rewrite app_nil_r in Hb.
  rewrite (body_is_rows _ _ _ _ (set_body_rows_is _ _ _ _ (pre ++ rows') Hb)).
  cbn. apply nth_error_None. rewrite length_app. lia.
Qed.

Lemma len_with_cells (force : bool) (t_row : node) (d : list pyval) :
  len (with_cells t_row
         (snd (merge_cells_zip false force (zip_longest (Tree.childs t_row) d))))
  = len t_row.
Proof.
  destruct t_row as [v|cls cs]; [reflexivity|].
  unfold len. cbn [with_cells Tree.childs]. apply merge_cells_length.
Qed.

(** Without column resizing the rows keep their numbers of cells. *)
Lemma merge_rows_widths (force normalize : bool) (m : nat) (rows : list node) :
  forall data,
    map len (snd (merge_rows false force normalize m rows data)) = map len rows.
Proof.
  induction rows as [|t_row rows IH]; intros data; [reflexivity|].
  destruct data as [|d_row data]; [reflexivity|]. cbn [merge_rows].
  pose proof (len_with_cells force t_row
                (if normalize then ljust d_row m else d_row)) as Hl.
  destruct (merge_cells_zip false force _) as [r1 cells]. cbn [snd] in Hl.
  destruct r1 as [[]|e|]; cbn [snd map]; try now rewrite Hl.
  specialize (IH data).
  destruct (merge_rows false force normalize m rows data) as [r2 rows2].
  cbn [snd map] in *. now rewrite Hl, IH.
Qed.


(** *** Idempotence on the merge path *)

(** [populate] on the merge path with as many data rows as body rows:
    either the call raises before the row loop and leaves the table as it
    is, or the guard lets it through and the row loop merges row by row. *)
Lemma populate_same_rows
    (self : t) (b : nat) (cls : tag_class) (rows : list node)
    (data : list (list pyval)) (resize_x force normalize : bool) :
  body_is self b cls rows ->
  rows <> [] ->
  length data = length rows ->
  mergeable resize_x rows ->
  (force = true -> Forall (fun d_row => d_row <> []) data) ->
  snd (populate (Some data) resize_x force normalize self) = self
  \/ exists m,
       py_max (map (@length pyval) data) = Some m
       /\ (if resize_x then True
           else exists w, py_max (map len rows) = Some w
                          /\ (w <? m)%nat = false)
       /\ populate (Some data) resize_x force normalize self
          = (fst (merge_rows resize_x force normalize m rows data),
             set_body_rows
               (snd (merge_rows resize_x force normalize m rows data)) self).
Proof.
  intros Hb Hr Hl Hmg Hne. unfold populate.
  rewrite (body_is_not_node _ _ _ _ Hb).
  destruct rows as [|r0 rows0] eqn:Erows; [congruence|]. rewrite <- Erows in *.
  destruct (py_max (map (@length pyval) data)) as [m|] eqn:Hm; [|now left].
  assert (Hrun :
            populate_rows (populate_rows_fuel self data) resize_x force
              normalize m (Some 0) data self
            = (fst (merge_rows resize_x force normalize m rows data),
               set_body_rows
                 (snd (merge_rows resize_x force normalize m rows data))
                 self)).
  { apply (populate_rows_lockstep resize_x force normalize m rows [] data
             self _ b cls Hb); try assumption.
    unfold populate_rows_fuel. rewrite (body_is_rows _ _ _ _ Hb). lia. }
  unfold bind. destruct resize_x; cbn [negb].
  - unfold ret. right. exists m. now rewrite Hrun.
  - unfold _check_row_size. rewrite (proj1 Hb), (body_is_rows _ _ _ _ Hb).
    destruct (py_max (map len rows)) as [w|] eqn:Hw; [|now left].
    destruct (w <? m)%nat eqn:Hlt; [now left|].
    right. exists m. rewrite Hrun. split; [reflexivity|]. split; [|reflexivity].
    now exists w.
Qed.

Lemma filled_with_cells (t_row : node) (cells : list node) :
  filled t_row = true -> cells <> [] -> filled (with_cells t_row cells) = true.
Proof.
  destruct t_row as [v|cls cs]; [discriminate|]. intros _ Hc.
  destruct cells; [congruence|reflexivity].
Qed.

(** Without column resizing rows that own cells still own cells after
    the merge. *)
Lemma merge_rows_filled (force normalize : bool) (m : nat) (rows : list node) :
  forall data,
    mergeable false rows ->
    mergeable false (snd (merge_rows false force normalize m rows data)).
Proof.
  assert (Hrow : forall t_row d,
            filled t_row = true ->
            filled (with_cells t_row
                      (snd (merge_cells_zip false force
                              (zip_longest (Tree.childs t_row) d)))) = true).
  { intros t_row d Hf. apply filled_with_cells; [assumption|].
    pose proof (merge_cells_length force (Tree.childs t_row) d) as Hl.
    destruct t_row as [v|cls [|c cs]]; try discriminate.
    intros E. rewrite E in Hl. discriminate. }
  induction rows as [|t_row rows IH]; intros data Hm; [constructor|].
  destruct data as [|d_row data]; [assumption|]. cbn [merge_rows].
  inversion Hm as [|x l [Hf _] Hrest]; subst.
  specialize (Hrow t_row (if normalize then ljust d_row m else d_row) Hf).
  destruct (merge_cells_zip false force _) as [r1 cells]. cbn [snd] in Hrow.
  assert (H1 : filled (with_cells t_row cells) = true
               /\ (false = true ->
                   Forall (fun c => filled c = true)
                     (Tree.childs (with_cells t_row cells))))
    by (split; [assumption|discriminate]).
  destruct r1 as [[]|e|]; cbn [snd]; try (constructor; assumption).
  specialize (IH data Hrest).
  destruct (merge_rows false force normalize m rows data) as [r2 rows2].
  cbn [snd] in *. constructor; assumption.
Qed.

Lemma merge_cell_filled (force : bool) (c : node) (v : pyval) :
  (filled c = true \/ c = new Td) -> v <> PNone ->
  filled (merge_cell force c v) = true.
Proof.
  intros Hc Hv. unfold merge_cell.
  destruct (same_content v c) eqn:Hs.
  - destruct Hc as [Hc| ->]; [assumption|discriminate].
  - destruct c as [w|cls [|x cs]].
    + destruct Hc as [Hc|Hc]; discriminate.
    + cbn. rewrite andb_false_r. cbn. destruct v; [congruence| |]; reflexivity.
    + destruct force; cbn; [|reflexivity].
      destruct v; [congruence| |]; reflexivity.
Qed.

Lemma merge_cells_full (force : bool) (cells : list node) :
  forall d,
    Forall (fun c => filled c = true) cells ->
    length cells <= length d ->
    Forall (fun v => v <> PNone) d ->
    Forall (fun c => filled c = true)
      (snd (merge_cells_zip true force (zip_longest cells d))).
Proof.
  induction cells as [|c cs IH]; intros d Hc Hl Hd.
  - cbn [zip_longest]. rewrite merge_cells_fresh. cbn [snd].
    apply Forall_map. revert Hd. apply Forall_impl. intros v Hv.
    apply merge_cell_filled; auto.
  - destruct d as [|v d]; [simpl in Hl; lia|].
    inversion Hc as [|x l Hx Hrest]; inversion Hd as [|y l' Hy Hdrest]; subst.
    cbn [zip_longest merge_cells_zip].
    specialize (IH d Hrest ltac:(simpl in Hl; lia) Hdrest).
    destruct (merge_cells_zip true force (zip_longest cs d)) as [r1 cs1].
    cbn [snd fill] in *. constructor; [|assumption].
    apply merge_cell_filled; auto.
Qed.

Lemma ljust_full (d : list pyval) (m : nat) : m <= length d -> ljust d m = d.
Proof.
  intros H. unfold ljust. replace (m - length d) with 0 by lia.
  apply app_nil_r.
Qed.

(** With column resizing, rows of cells with content merged with a full
    grid are rows of cells with content. *)
Lemma merge_rows_full (force normalize : bool) (m m' : nat) (rows : list node) :
  forall data,
    m' <= m ->
    mergeable true rows ->
    length data = length rows ->
    full_grid m rows data ->
    mergeable true (snd (merge_rows true force normalize m' rows data)).
Proof.
  intros data Hm'. revert data.
  induction rows as [|t_row rows IH]; intros data Hmg Hl [Hd Hw]; [constructor|].
  destruct data as [|d_row data]; [discriminate|]. cbn [merge_rows].
  inversion Hmg as [|x l [Hf Hc] Hrest]; subst.
  inversion Hd as [|y l' [Hlen Hv] Hdrest]; subst.
  inversion Hw as [|z l'' Hwz Hwrest]; subst.
  specialize (Hc eq_refl).
  assert (E : (if normalize then ljust d_row m' else d_row) = d_row)
    by (destruct normalize; [apply ljust_full; lia|reflexivity]).
  rewrite E.
  pose proof (merge_cells_full force (Tree.childs t_row) d_row Hc Hwz Hv) as Hfull.
  pose proof (merge_cells_resize force (zip_longest (Tree.childs t_row) d_row))
    as Hok.
  pose proof (merge_cells_resize_length force (Tree.childs t_row) d_row) as Hn.
  destruct (merge_cells_zip true force _) as [r1 cells]. cbn [fst snd] in *.
  subst r1.
  specialize (IH data Hrest ltac:(simpl in Hl; lia) (conj Hdrest Hwrest)).
  destruct (merge_rows true force normalize m' rows data) as [r2 rows2].
  cbn [snd] in *. constructor; [|assumption]. split.
  - apply filled_with_cells; [assumption|].
    destruct t_row as [v|cls [|c cs]]; try discriminate.
    intros ->. cbn [Tree.childs length] in Hn. lia.
  - intros _. destruct t_row as [v|cls cs]; [discriminate|]. exact Hfull.
Qed.

Lemma fold_max_lt (l : list nat) (a k : nat) :
  a < k -> Forall (fun x => x < k) l -> fold_left Nat.max l a < k.
Proof.
  revert a. induction l as [|x l IH]; intros a Ha Hl; simpl; [assumption|].
  inversion Hl; subst. apply IH; [lia|assumption].
Qed.

Lemma py_max_lt (l : list nat) (k : nat) :
  l <> [] -> Forall (fun x => x < k) l ->
  exists w, py_max l = Some w /\ w < k.
Proof.
  destruct l as [|a l]; [congruence|]. intros _ Hl. inversion Hl; subst.
  eexists. split; [reflexivity|]. now apply fold_max_lt.
Qed.

(** X1. Idempotence on the merge path.  On a body whose rows all own
    cells, with a grid of as many rows as the body (at least one), none
    of them empty when [force] is set, a second [populate] with the same
    grid and options ends as the first did and leaves the table the
    first call left; with [resize_x] this holds when the cells of the
    body all own content and the grid is full: its rows have the same
    number of values, none of them [None], and no body row has more
    cells. *)
Theorem populate_idempotent_same_rows
    (self : t) (b : nat) (cls : tag_class) (rows : list node)
    (data : list (list pyval)) (resize_x force normalize : bool) :
  body_is self b cls rows ->
  rows <> [] ->
  length data = length rows ->
  mergeable resize_x rows ->
  (force = true -> Forall (fun d_row => d_row <> []) data) ->
  (resize_x = true -> exists m, full_grid m rows data) ->
  populate (Some data) resize_x force normalize
    (snd (populate (Some data) resize_x force normalize self))
  = populate (Some data) resize_x force normalize self.
Proof.
  intros Hb Hr Hl Hmg Hne Hfull.
  destruct (populate_same_rows self b cls rows data resize_x force normalize
              Hb Hr Hl Hmg Hne) as [Hsame|(m & Hm & Hguard & Heq)].
  - now rewrite Hsame.
  - rewrite Heq. cbn [snd].
    assert (Hmg1 : mergeable resize_x
                     (snd (merge_rows resize_x force normalize m rows data))).
    { destruct resize_x; [|now apply merge_rows_filled].
      destruct (Hfull eq_refl) as (k & Hk).
      apply (merge_rows_full force normalize k m); try assumption.
      destruct (py_max_lt (map (@length pyval) data) (S k))
        as (w & Hw & Hlt).
      - destruct data; [destruct rows; [congruence|discriminate]|discriminate].
      - apply Forall_map. destruct Hk as [Hk _]. revert Hk.
        apply Forall_impl. intros d [Hd _]. lia.
      - assert (w = m) by congruence. lia. }
    destruct (merge_rows resize_x force normalize m rows data)
      as [r rows'] eqn:E. cbn [fst snd] in *.
    pose proof (set_body_rows_is _ _ _ _ rows' Hb) as Hb1.
    assert (Hl1 : length data = length rows').
    { pose proof (merge_rows_length resize_x force normalize m rows data) as H.
      rewrite E in H. cbn [snd] in H. lia. }
    assert (Hr1 : rows' <> []).
    { intros ->. destruct rows; [congruence|]. destruct data; discriminate. }
    destruct (populate_same_rows _ b cls rows' data resize_x force normalize
                Hb1 Hr1 Hl1 Hmg1 Hne) as [Hsame|(m' & Hm' & _ & Heq')].
    + (* the second call raised before the loop: the guard cannot fail now *)
      revert Hsame. unfold populate.
      rewrite (body_is_not_node _ _ _ _ Hb1).
      destruct rows' as [|r0 rows0] eqn:Erows; [congruence|].
      rewrite <- Erows in *. rewrite Hm. unfold bind.
      assert (Hrun :
                populate_rows
                  (populate_rows_fuel (set_body_rows rows' self) data)
                  resize_x force normalize m (Some 0) data
                  (set_body_rows rows' self)
                = (r, set_body_rows rows' self)).
      { rewrite (populate_rows_lockstep resize_x force normalize m rows' []
                   data _ _ b cls Hb1); try assumption.
        - rewrite (merge_rows_idem _ _ _ _ _ _ _ _ E). cbn [fst snd app].
          now rewrite (set_body_rows_same _ _ _ _ Hb1).
        - unfold populate_rows_fuel. rewrite (body_is_rows _ _ _ _ Hb1). lia. }
      destruct resize_x; cbn [negb].
      * unfold ret. now rewrite Hrun.
      * destruct Hguard as (w & Hw & Hlt).
        unfold _check_row_size.
        rewrite (proj1 Hb1), (body_is_rows _ _ _ _ Hb1).
        pose proof (merge_rows_widths force normalize m rows data) as Hwd.
        rewrite E in Hwd. cbn [snd] in Hwd. rewrite Hwd, Hw, Hlt.
        now rewrite Hrun.
    + rewrite Heq'. assert (m' = m) by congruence. subst m'.
      rewrite (merge_rows_idem _ _ _ _ _ _ _ _ E). cbn [fst snd].
      now rewrite (set_body_rows_same _ _ _ _ Hb1).
Qed.

(** C1. Reconciling twice is not reconciling once.  From a table without
    body and a grid whose rows differ in length, the first call (all
    options on) builds the rows as they are given, a row of one cell and a
    row of two; the second call with the same grid and options pads the
    first data row to the width of the widest and appends a new empty
    cell to the first table row.  Likewise, on a body of three rows and a
    grid of one row, the first call takes one of the two surplus rows
    away and the second call the other. *)
Theorem populate_twice_differs :
  populate (Some ragged_grid) true true true
    (snd (populate (Some ragged_grid) true true true fresh))
  <> populate (Some ragged_grid) true true true fresh
  /\ populate (Some ragged_grid) true true true fresh
     = (Ok tt, table_of [["a"]; ["b"; "c"]])
  /\ populate (Some ragged_grid) true true true (table_of [["a"]; ["b"; "c"]])
     = (Ok tt,
        mk [Tag Tbody [Tag Tr [Tag Td [Leaf (PStr "a")]; Tag Td []];
                       row_of ["b"; "c"]]]
           (Some 0) None None None)
  /\ populate (Some [[PStr "x"]]) true true true
       (table_of [["a"]; ["b"]; ["c"]])
     = (Ok tt, table_of [["x"]; ["c"]])
  /\ populate (Some [[PStr "x"]]) true true true (table_of [["x"]; ["c"]])
     = (Ok tt, table_of [["x"]]).
Proof.
  split; [|repeat split; reflexivity].
  intros H. vm_compute in H. discriminate H.
Qed.


(** *** Surplus rows *)




(** C3. Surplus rows.  On a body of three rows and a grid of one row,
    reconciling with [force] set removes the second row only: the body's
    iterator then stands past the row that moved up, and the third row
    stays in the body.  With [force] unset the call does not leave the
    surplus rows to themselves and return: at the first surplus row the
    absent data row is padded or zipped as if it were a row, and the call
    raises [TypeError], with or without normalisation. *)
Theorem populate_surplus_rows :
  populate (Some [[PStr "x"]]) true true true
    (table_of [["a"]; ["b"]; ["c"]])
  = (Ok tt, table_of [["x"]; ["c"]])
  /\ populate (Some [[PStr "a"]]) true false true
       (table_of [["a"]; ["b"]; ["c"]])
     = (Raise TypeError, table_of [["a"]; ["b"]; ["c"]])
  /\ populate (Some [[PStr "a"]]) true false false
       (table_of [["a"]; ["b"]; ["c"]])
     = (Raise TypeError, table_of [["a"]; ["b"]; ["c"]]).
Proof. repeat split; reflexivity. Qed.

End TableProps.

(** ** The table reconciler: rows added, rows left over, other calls *)

Module TableMore.
Import Tree TempyTable TableNotions TableProps.
Local Open Scope call_scope.


(** [add_row] without [resize_x] on a table with a body. *)
Lemma add_row_checked (row : list pyval) (self : t) (b : nat)
    (cls : tag_class) (rows : list node) :
  body_is self b cls rows ->
  add_row row false self
  = match py_max (map len rows) with
    | None => (Raise ValueError, self)
    | Some w =>
        if (w <? length row)%nat then
          (Raise (WidgetDataError
                    "The given data have more columns than the table."), self)
        else (Ok tt, set_body_rows (rows ++ [new_row Td row]) self)
    end.
Proof.
  intros Hb. unfold add_row, bind, _check_row_size. cbn [negb].
  rewrite (proj1 Hb), (body_is_rows _ _ _ _ Hb).
  destruct (py_max (map len rows)) as [w|]; [|reflexivity].
  destruct (w <? length row)%nat; [reflexivity|].
  unfold body_call, set_body_rows.
  rewrite (proj1 Hb), (body_is_deref _ _ _ _ Hb). rewrite new_row_eq.
  reflexivity.
Qed.



Lemma ljust_length (d : list pyval) (m : nat) :
  length (ljust d m) = Nat.max (length d) m.
Proof. unfold ljust. rewrite length_app, repeat_length. lia. Qed.



Lemma len_new_row (tag : tag_class) (d : list pyval) :
  len (new_row tag d) = length d.
Proof. rewrite new_row_eq. unfold len. cbn. apply length_map. Qed.






(** [populate] on a table whose body owns no row. *)
Lemma populate_without_rows
    (self : t) (b : nat) (cls : tag_class) (grid : list (list pyval))
    (resize_x force normalize : bool) :
  body_is self b cls [] ->
  populate (Some grid) resize_x force normalize self
  = (Ok tt,
     mk (childs self ++ [Tag Tbody (map (new_row Td) grid)])
        (Some (length (childs self))) (header self) (footer self)
        (caption self)).
Proof.
  intros Hb. unfold populate. rewrite (body_is_not_node _ _ _ _ Hb).
  unfold bind at 1, call_named, bind at 1, append_to_self.
  unfold setattr. cbn [String.eqb Ascii.eqb Bool.eqb childs body header footer caption].
  exact (for_each_add_row grid (childs self) [] Tbody _ _ _).
Qed.

(** X28. A body without rows is no body for [populate]: on a table whose
    body owns no row (the table [TempyTable()] builds), [populate] with a
    grid appends a second body to the table, binds the [body] attribute
    to it and gives it one row per data row; the first body stays a
    child of the table. *)
Theorem populate_empty_body
    (self : t) (b : nat) (cls : tag_class) (grid : list (list pyval))
    (resize_x force normalize : bool) :
  body_is self b cls [] ->
  populate (Some grid) resize_x force normalize self
  = (Ok tt,
     mk (childs self
         ++ [Tag Tbody (map (fun row => Tag Tr (map (cell_of Td) row)) grid)])
        (Some (length (childs self))) (header self) (footer self)
        (caption self)).
Proof.
  intros Hb.
  rewrite (populate_without_rows self b cls grid resize_x force normalize Hb).
  now rewrite (map_ext _ _ (new_row_eq Td)).
Qed.

(** X6. Without column resizing [populate] keeps the number of cells of
    every body row, whether it returns or raises, when every body row
    owns cells and the grid has as many rows as the body, none of them
    empty when [force] is set. *)
Theorem populate_keeps_widths
    (self : t) (b : nat) (cls : tag_class) (rows : list node)
    (data : list (list pyval)) (force normalize : bool) :
  body_is self b cls rows ->
  length data = length rows ->
  mergeable false rows ->
  (force = true -> Forall (fun d_row => d_row <> []) data) ->
  map len (body_rows (snd (populate (Some data) false force normalize self)))
  = map len rows.
Proof.
  intros Hb Hl Hmg Hne.
  destruct rows as [|r0 rows0] eqn:Erows.
  { destruct data; [|discriminate].
    rewrite (populate_without_rows self b cls [] _ _ _ Hb). cbn [snd map].
    unfold body_rows. cbn [body]. now rewrite deref_app_last. }
  rewrite <- Erows in *.
  destruct (populate_same_rows self b cls rows data false force normalize
              Hb ltac:(congruence) Hl Hmg Hne) as [Hsame|(m & Hm & _ & Heq)].
  - now rewrite Hsame, (body_is_rows _ _ _ _ Hb).
  - rewrite Heq. cbn [snd].
    rewrite (body_is_rows _ _ _ _ (set_body_rows_is _ _ _ _ _ Hb)).
    apply merge_rows_widths.
Qed.

Lemma merge_rows_short (force : bool) (m : nat) (rows : list node) :
  forall data,
    length data = length rows ->
    Forall (fun d => length d <= m) data ->
    Exists (fun r => len r < m) rows ->
    fst (merge_rows false force true m rows data) = Raise AttributeError.
Proof.
  induction rows as [|t_row rows IH]; intros data Hl Hd Hex.
  - inversion Hex.
  - destruct data as [|d data]; [discriminate|]. cbn [merge_rows].
    inversion Hd as [|x l Hx Hrest]; subst.
    pose proof (merge_cells_short force (Tree.childs t_row) (ljust d m)) as Hc.
    rewrite ljust_length in Hc.
    destruct (merge_cells_zip false force _) as [r cells]. cbn [fst] in Hc.
    subst r.
    destruct (Nat.ltb_spec (length (Tree.childs t_row)) (Nat.max (length d) m))
      as [Hlt|Hge]; [reflexivity|].
    inversion Hex as [x l Hshort|x l Hlater]; subst.
    + unfold len in Hshort. lia.
    + specialize (IH data ltac:(simpl in Hl; lia) Hrest Hlater).
      destruct (merge_rows false force true m rows data). exact IH.
Qed.

(** X7. A body whose rows differ in length.  Every body row owns cells
    and the grid has as many rows as the body, none of them empty when
    [force] is set.  Without column resizing and with normalisation, a
    grid that passes the width guard (no data row is wider than the
    widest body row) but is wider than some body row makes the cell loop
    read the content of a cell that is not there, an [AttributeError],
    not a data-shape error. *)
Theorem populate_ragged_AttributeError
    (self : t) (b : nat) (cls : tag_class) (rows : list node)
    (data : list (list pyval)) (force : bool) (m w : nat) :
  body_is self b cls rows ->
  length data = length rows ->
  mergeable false rows ->
  (force = true -> Forall (fun d_row => d_row <> []) data) ->
  py_max (map (@length pyval) data) = Some m ->
  py_max (map len rows) = Some w ->
  m <= w ->
  Exists (fun r => len r < m) rows ->
  fst (populate (Some data) false force true self) = Raise AttributeError.
Proof.
  intros Hb Hl Hmg Hne Hm Hw Hle Hex.
  unfold populate. rewrite (body_is_not_node _ _ _ _ Hb).
  destruct rows as [|r0 rows0] eqn:Erows; [inversion Hex|].
  rewrite <- Erows in *. rewrite Hm.
  unfold bind. cbn [negb]. unfold _check_row_size.
  rewrite (proj1 Hb), (body_is_rows _ _ _ _ Hb), Hw.
  destruct (Nat.ltb_spec w m); [lia|].
  rewrite (populate_rows_lockstep false force true m rows [] data self _
             b cls Hb Hl Hmg Hne)
    by (unfold populate_rows_fuel; rewrite (body_is_rows _ _ _ _ Hb); lia).
  cbn [fst]. apply merge_rows_short; try assumption.
  apply Forall_forall. intros d Hin.
  destruct (py_max_In (map (@length pyval) data) (length d)
              (in_map _ _ _ Hin)) as (m2 & Hm2 & Hle2). congruence.
Qed.

Lemma same_but_refl b self : same_but b self self.
Proof. repeat split; reflexivity. Qed.

Lemma same_but_trans b s1 s2 s3 :
  same_but b s1 s2 -> same_but b s2 s3 -> same_but b s1 s3.
Proof.
  intros (A1 & A2 & A3 & A4 & A5 & A6) (B1 & B2 & B3 & B4 & B5 & B6).
  repeat split; try congruence. intros i Hi. rewrite B6, A6; auto.
Qed.

Lemma same_but_set_child b n self :
  body self = Some b -> same_but b self (set_child b n self).
Proof.
  intros Hb. unfold set_child. repeat split; cbn; auto.
  - apply set_nth_length.
  - intros i Hi. now apply nth_error_set_nth_other.
Qed.

Lemma same_but_set_body_rows b rows self :
  body self = Some b -> same_but b self (set_body_rows rows self).
Proof.
  intros Hb. unfold set_body_rows. rewrite Hb.
  destruct (deref self b); [apply same_but_refl|now apply same_but_set_child].
Qed.

Lemma same_but_add_row b row resize_x self :
  body self = Some b -> same_but b self (snd (add_row row resize_x self)).
Proof.
  intros Hb. unfold add_row, bind.
  destruct resize_x; cbn [negb].
  - unfold ret, body_call. rewrite Hb. now apply same_but_set_child.
  - pose proof (check_row_size_state (RowData row) self) as Hc.
    destruct (_check_row_size (RowData row) self) as [[a|e|] s1];
      cbn [snd] in *; subst s1; try apply same_but_refl.
    unfold body_call. rewrite Hb. now apply same_but_set_child.
Qed.

Lemma same_but_add_row_fill b d_row self :
  body self = Some b -> same_but b self (snd (add_row_fill d_row self)).
Proof.
  intros Hb. destruct d_row as [row|]; [now apply same_but_add_row|].
  destruct (add_row_fill_None self) as (e & ->). apply same_but_refl.
Qed.

Lemma same_but_populate_rows b (fuel : nat) :
  forall resize_x force normalize m body_it data_it self,
    body self = Some b ->
    same_but b self
      (snd (populate_rows fuel resize_x force normalize m body_it data_it self)).
Proof.
  induction fuel as [|fuel IH]; intros rx f n m body_it data_it self Hb;
    [apply same_but_refl|].
  assert (Hstep : forall (c : M t unit) it ds,
            same_but b self (snd (c self)) ->
            same_but b self
              (snd ((c;; populate_rows fuel rx f n m it ds) self))).
  { intros c it ds Hcs. unfold bind.
    destruct (c self) as [[a|e|] s1]; cbn [snd] in *; try assumption.
    eapply same_but_trans; [exact Hcs|]. apply IH.
    destruct Hcs as (Ha & _). congruence. }
  assert (Hcase : (exists i t_row, body_it = Some i
                                   /\ nth_error (body_rows self) i = Some t_row)
                  \/ used_up body_it (body_rows self)).
  { destruct body_it as [i|]; [|now right].
    destruct (nth_error (body_rows self) i) as [r|] eqn:Hi;
      [left; eauto|now right]. }
  destruct Hcase as [(i & t_row & -> & Hi)|Hu].
  - rewrite (populate_rows_at _ _ _ _ _ _ _ _ _ Hi). apply Hstep.
    destruct (truth t_row); cbn [negb];
      [|now apply same_but_add_row_fill].
    destruct (not_row (hd_error data_it) && f).
    + cbn [snd]. now apply same_but_set_body_rows.
    + unfold merge_row. destruct (hd_error data_it);
        [|apply same_but_refl].
      destruct (merge_cells _ rx f _ _ _). cbn [snd].
      now apply same_but_set_body_rows.
  - rewrite (populate_rows_past _ _ _ _ _ _ _ _ Hu).
    destruct data_it as [|d ds]; [apply same_but_refl|].
    apply Hstep. now apply same_but_add_row.
Qed.

(** X8. [populate] on a table whose body owns rows changes the body only:
    the attributes, the number of children and every other child
    (caption, header, footer) are as before, whatever the data and the
    options and however the call ends. *)
Theorem populate_only_body
    (self : t) (b : nat) (cls : tag_class) (rows : list node)
    (data : option (list (list pyval))) (resize_x force normalize : bool) :
  body_is self b cls rows ->
  rows <> [] ->
  same_but b self (snd (populate data resize_x force normalize self)).
Proof.
  intros Hb Hr. unfold populate. destruct data as [data|]; [|apply same_but_refl].
  rewrite (body_is_not_node _ _ _ _ Hb).
  destruct rows as [|r0 rows0] eqn:Erows; [congruence|]. rewrite <- Erows in *.
  destruct (py_max _) as [m|]; [|apply same_but_refl].
  unfold bind.
  assert (Hc : forall r, snd ((if negb resize_x then _check_row_size r
                               else ret tt) self) = self).
  { intros r. destruct resize_x; [reflexivity|]. cbn [negb].
    apply check_row_size_state. }
  specialize (Hc (RowLen m)).
  destruct ((if negb resize_x then _check_row_size (RowLen m) else ret tt) self)
    as [[a|e|] s1]; cbn [snd] in *; subst s1; try apply same_but_refl.
  apply same_but_populate_rows. apply Hb.
Qed.

(** X9. [add_row] without [resize_x]: a row wider than the widest row of
    the body raises the data-shape error and the table is unchanged. *)
Theorem add_row_too_wide
    (self : t) (b w : nat) (row : list pyval) :
  body self = Some b ->
  py_max (map len (body_rows self)) = Some w ->
  w < length row ->
  add_row row false self
  = (Raise (WidgetDataError
              "The given data have more columns than the table."), self).
Proof.
  intros Hb Hw Hlt. unfold add_row, bind, _check_row_size. cbn [negb].
  rewrite Hb, Hw. destruct (Nat.ltb_spec w (length row)); [reflexivity|lia].
Qed.

(** X10. On a body without rows [add_row] without [resize_x] raises
    [ValueError] for every row, the empty one included ([max] of no
    widths); with [resize_x] the row becomes the first row. *)
Theorem add_row_no_rows
    (self : t) (b : nat) (cls : tag_class) (row : list pyval) :
  body_is self b cls [] ->
  add_row row false self = (Raise ValueError, self)
  /\ add_row row true self = (Ok tt, set_body_rows [new_row Td row] self).
Proof.
  intros Hb. split.
  - now rewrite (add_row_checked row self b cls [] Hb).
  - unfold add_row, bind, ret, body_call, set_body_rows. cbn [negb].
    rewrite (proj1 Hb), (body_is_deref _ _ _ _ Hb), new_row_eq. reflexivity.
Qed.

(** [add_row] when the guard does not apply or lets the row through. *)
Lemma add_row_appends_eq
    (self : t) (b w : nat) (cls : tag_class) (rows : list node)
    (row : list pyval) (resize_x : bool) :
  body_is self b cls rows ->
  (resize_x = false -> py_max (map len rows) = Some w /\ length row <= w) ->
  add_row row resize_x self
  = (Ok tt, set_body_rows (rows ++ [Tag Tr (map (cell_of Td) row)]) self).
Proof.
  intros Hb Hg. destruct resize_x.
  - unfold add_row, bind, ret, body_call, set_body_rows. cbn [negb].
    rewrite (proj1 Hb), (body_is_deref _ _ _ _ Hb), new_row_eq.
    reflexivity.
  - destruct (Hg eq_refl) as [Hw Hle].
    rewrite (add_row_checked row self b cls rows Hb), Hw, new_row_eq.
    destruct (Nat.ltb_spec w (length row)); [lia|reflexivity].
Qed.

(** X11. [add_row] appends one row after the existing ones, with one cell
    per value in order, when [resize_x] holds or the row is no wider than
    the widest row of the body. *)
Theorem add_row_appends
    (self : t) (b w : nat) (cls : tag_class) (rows : list node)
    (row : list pyval) (resize_x : bool) :
  body_is self b cls rows ->
  (resize_x = false -> py_max (map len rows) = Some w /\ length row <= w) ->
  fst (add_row row resize_x self) = Ok tt
  /\ body_rows (snd (add_row row resize_x self))
     = rows ++ [Tag Tr (map (cell_of Td) row)].
Proof.
  intros Hb Hg.
  rewrite (add_row_appends_eq self b w cls rows row resize_x Hb Hg).
  split; [reflexivity|]. cbn [snd].
  apply (body_is_rows _ b cls). now apply (set_body_rows_is _ _ _ rows).
Qed.



(** X13. Footer synthesis accumulates: every [make_footer] appends one more
    footer container, in call order, after the children the table has;
    the [footer] attribute stays on the one it was bound to, else on the
    first new one. *)
Theorem make_footers_accumulate (feet : list (list pyval)) :
  forall self,
    for_each feet make_footer self
    = (Ok tt,
       mk (childs self ++ map (fun f => Tag Tfoot [new_row Td f]) feet)
          (body self) (header self)
          (match feet with
           | [] => footer self
           | _ => or_else (footer self) (length (childs self))
           end)
          (caption self)).
Proof.
  induction feet as [|f feet IH]; intros self; cbn [for_each map].
  - unfold ret. rewrite app_nil_r. now destruct self.
  - unfold bind. rewrite make_footer_eq, IH.
    cbn [childs body header footer caption]. rewrite <- app_assoc.
    cbn [app]. f_equal. f_equal.
    destruct feet; destruct (footer self); reflexivity.
Qed.

(** X14. Header synthesis accumulates in the same way, for any number of
    calls: one more header container per call, the [header] attribute on
    the first. *)
Theorem make_headers_accumulate (heads : list (list pyval)) :
  forall self,
    for_each heads make_header self
    = (Ok tt,
       mk (childs self ++ map (fun h => Tag Thead [new_row Th h]) heads)
          (body self)
          (match heads with
           | [] => header self
           | _ => or_else (header self) (length (childs self))
           end)
          (footer self) (caption self)).
Proof.
  induction heads as [|h heads IH]; intros self; cbn [for_each map].
  - unfold ret. rewrite app_nil_r. now destruct self.
  - unfold bind. rewrite make_header_eq, IH.
    cbn [childs body header footer caption]. rewrite <- app_assoc.
    cbn [app]. f_equal. f_equal.
    destruct heads; destruct (header self); reflexivity.
Qed.

Lemma new_row_blank (inner_tag : tag_class) (cols : nat) :
  new_row inner_tag (repeat PNone cols) = blank_row inner_tag cols.
Proof. rewrite new_row_eq. unfold blank_row. now rewrite map_repeat. Qed.

Lemma rev_repeat {A : Type} (x : A) (n : nat) : rev (repeat x n) = repeat x n.
Proof.
  induction n as [|n IH]; [reflexivity|]. cbn [repeat rev]. rewrite IH.
  symmetry. apply repeat_cons.
Qed.

Lemma pop_last_repeat {A : Type} (x : A) (n : nat) :
  pop_last (repeat x (S n)) = Some (x, repeat x n).
Proof.
  unfold pop_last. rewrite rev_repeat. cbn [repeat]. now rewrite rev_repeat.
Qed.

Lemma caption_step (caption_text : pyval) :
  (if truthy caption_text then make_caption caption_text else ret tt) fresh
  = (Ok tt,
     mk (caption_part caption_text) None None None
        (if truthy caption_text then Some 0 else None)).
Proof.
  unfold caption_part. destruct (truthy caption_text) eqn:Hc; [|reflexivity].
  rewrite make_caption_new by reflexivity.
  destruct caption_text; try discriminate; reflexivity.
Qed.

(** The constructor without data, in closed form. *)
Lemma init_blank_eq (rows cols : nat) (caption_text : pyval)
    (head foot : bool) :
  TempyTable rows cols None caption_text head foot
  = (Ok (repeat (repeat PNone cols) rows),
     let n := length (caption_part caption_text) in
     mk (caption_part caption_text
         ++ part_if head (Tag Thead [blank_row Th cols])
         ++ part_if foot (Tag Tfoot [blank_row Td cols])
         ++ [Tag Tbody (repeat (blank_row Td cols) rows)])
        (Some (n + Nat.b2n head + Nat.b2n foot))
        (if head then Some n else None)
        (if foot then Some (n + Nat.b2n head) else None)
        (if truthy caption_text then Some 0 else None)).
Proof.
  unfold TempyTable, __init__. unfold bind at 1. rewrite caption_step.
  destruct head, foot; cbn [Nat.b2n Nat.add part_if].
  - replace (rows + 2) with (S (S rows)) by lia.
    cbn [repeat pop_first]. unfold bind at 1. unfold bind at 1.
    rewrite make_header_eq. unfold ret at 1. unfold bind at 1.
    change (repeat PNone cols :: repeat (repeat PNone cols) rows)
      with (repeat (repeat PNone cols) (S rows)).
    rewrite pop_last_repeat. unfold bind at 1.
    rewrite make_footer_eq. unfold ret at 1. unfold bind at 1.
    rewrite populate_no_body_eq by reflexivity. unfold ret.
    cbn [fst snd childs body header footer caption or_else].
    rewrite !new_row_blank, map_repeat, new_row_blank.
    rewrite <- !app_assoc, !length_app. cbn [length app].
    rewrite ?Nat.add_assoc, ?Nat.add_0_r; reflexivity.
  - replace (rows + 1) with (S rows) by lia.
    cbn [repeat pop_first]. unfold bind at 1. unfold bind at 1.
    rewrite make_header_eq. unfold ret at 1. unfold bind at 1.
    unfold ret at 1. unfold bind at 1.
    rewrite populate_no_body_eq by reflexivity. unfold ret.
    cbn [fst snd childs body header footer caption or_else].
    rewrite !new_row_blank, map_repeat, new_row_blank.
    rewrite <- !app_assoc, !length_app. cbn [length app].
    rewrite ?Nat.add_assoc, ?Nat.add_0_r; reflexivity.
  - replace (rows + 1) with (S rows) by lia.
    unfold bind at 1. unfold ret at 1. unfold bind at 1.
    rewrite pop_last_repeat. unfold bind at 1.
    rewrite make_footer_eq. unfold ret at 1. unfold bind at 1.
    rewrite populate_no_body_eq by reflexivity. unfold ret.
    cbn [fst snd childs body header footer caption or_else].
    rewrite !new_row_blank, map_repeat, new_row_blank.
    rewrite <- !app_assoc, !length_app. cbn [length app].
    rewrite ?Nat.add_assoc, ?Nat.add_0_r; reflexivity.
  - rewrite Nat.add_0_r.
    unfold bind at 1. unfold ret at 1. unfold bind at 1. unfold ret at 1.
    unfold bind at 1.
    rewrite populate_no_body_eq by reflexivity. unfold ret.
    cbn [fst snd childs body header footer caption or_else].
    rewrite map_repeat, new_row_blank.
    rewrite ?Nat.add_assoc, ?Nat.add_0_r; reflexivity.
Qed.

(** X15. Without data, or with an empty grid, the constructor builds the
    table of the given size: a body of [rows] rows of [cols] cells
    without content, after a header row and before nothing else but a
    footer row when asked for, each of [cols] cells without content. *)
Theorem init_blank_table
    (rows cols : nat) (data : option (list (list pyval)))
    (caption_text : pyval) (head foot : bool) :
  data = None \/ data = Some [] ->
  fst (TempyTable rows cols data caption_text head foot)
  = Ok (repeat (repeat PNone cols) rows)
  /\ childs (snd (TempyTable rows cols data caption_text head foot))
     = caption_part caption_text
       ++ part_if head (Tag Thead [blank_row Th cols])
       ++ part_if foot (Tag Tfoot [blank_row Td cols])
       ++ [Tag Tbody (repeat (blank_row Td cols) rows)]
  /\ body_rows (snd (TempyTable rows cols data caption_text head foot))
     = repeat (blank_row Td cols) rows.
Proof.
  intros Hd.
  assert (E : TempyTable rows cols data caption_text head foot
              = TempyTable rows cols None caption_text head foot)
    by (destruct Hd as [-> | ->]; reflexivity).
  rewrite E, init_blank_eq. cbn [fst snd childs]. repeat split.
  unfold body_rows, deref. cbn [body childs].
  rewrite !app_assoc.
  replace (length (caption_part caption_text) + Nat.b2n head + Nat.b2n foot)
    with (length ((caption_part caption_text
                   ++ part_if head (Tag Thead [blank_row Th cols]))
                  ++ part_if foot (Tag Tfoot [blank_row Td cols])))
    by (rewrite !length_app; destruct head, foot; simpl; lia).
  now rewrite nth_middle.
Qed.

(** X16. A grid of one row with [head] and [foot] set: the row goes to the
    header and popping the footer row off the grid, now empty, is an
    [IndexError]; the table is left with the header and without body. *)
Theorem init_one_row_head_foot
    (rows cols : nat) (h : list pyval) (caption_text : pyval) :
  TempyTable rows cols (Some [h]) caption_text true true
  = (Raise IndexError,
     mk (caption_part caption_text ++ [Tag Thead [new_row Th h]])
        None (Some (length (caption_part caption_text))) None
        (if truthy caption_text then Some 0 else None)).
Proof.
  unfold TempyTable, __init__. unfold bind at 1. rewrite caption_step.
  cbn [pop_first]. unfold bind at 1. unfold bind at 1.
  rewrite make_header_eq. reflexivity.
Qed.

Lemma py_index_last (n : nat) :
  py_index (S n) (Z.of_nat (S n) - 1) = Some n.
Proof.
  unfold py_index.
  replace (Z.of_nat (S n) - 1)%Z with (Z.of_nat n) by lia.
  destruct (Z.leb_spec 0 (Z.of_nat n)); [|lia].
  destruct (Z.ltb_spec (Z.of_nat n) (Z.of_nat (S n))); [|lia].
  cbn [andb]. now rewrite Nat2Z.id.
Qed.

Lemma py_index_empty (i : Z) : py_index 0 i = None.
Proof.
  unfold py_index. cbn [Z.of_nat Z.opp].
  destruct (Z.leb_spec 0 i), (Z.ltb_spec i 0); cbn [andb]; try reflexivity; lia.
Qed.

Lemma first_childs_cells (row : list pyval) :
  Forall (fun v => v <> PNone) row ->
  first_childs (map (cell_of Td) row) = Ok (map Leaf row).
Proof.
  induction 1 as [|v row Hv _ IH]; [reflexivity|].
  cbn [map first_childs]. unfold cell_of at 1.
  destruct v; try congruence; cbn [is_None]; now rewrite IH.
Qed.

Lemma remove_nth_last {A : Type} (l : list A) (x : A) :
  remove_nth (length l) (l ++ [x]) = l.
Proof. rewrite remove_nth_middle. apply app_nil_r. Qed.

(** [pop_row] with the default index takes the last row. *)
Lemma pop_row_last (self : t) (b : nat) (cls : tag_class) (rows : list node)
    (row : node) (tags : bool) :
  body_is self b cls (rows ++ [row]) ->
  pop_row None tags self
  = (if tags then Ok (RowTag row)
     else match first_childs (Tree.childs row) with
          | Ok values => Ok (RowValues values)
          | Raise e => Raise e
          | OutOfFuel => OutOfFuel
          end,
     set_body_rows rows self).
Proof.
  intros Hb. unfold pop_row.
  rewrite (proj1 Hb), (body_is_rows _ _ _ _ Hb), length_app.
  cbn [length]. rewrite Nat.add_1_r, py_index_last.
  rewrite nth_error_middle, remove_nth_last.
  destruct tags; [reflexivity|].
  now destruct (first_childs (Tree.childs row)).
Qed.

(** X17. Round trip: [pop_row] after [add_row] returns the values of the
    row just added, in order, and leaves the table as it was before the
    two calls, when no value of the row is [None]. *)
Theorem add_row_pop_row
    (self : t) (b w : nat) (cls : tag_class) (rows : list node)
    (row : list pyval) (resize_x : bool) :
  body_is self b cls rows ->
  (resize_x = false -> py_max (map len rows) = Some w /\ length row <= w) ->
  Forall (fun v => v <> PNone) row ->
  (add_row row resize_x ;; pop_row None false) self
  = (Ok (RowValues (map Leaf row)), self).
Proof.
  intros Hb Hg Hv. unfold bind.
  rewrite (add_row_appends_eq self b w cls rows row resize_x Hb Hg).
  rewrite (pop_row_last _ b cls rows (Tag Tr (map (cell_of Td) row)) false)
    by now apply (set_body_rows_is _ _ _ _ _ Hb).
  cbn [Tree.childs]. rewrite (first_childs_cells row Hv).
  now rewrite (set_body_rows_twice _ _ _ _ _ _ Hb),
    (set_body_rows_same _ _ _ _ Hb).
Qed.

Lemma first_childs_empty (cells : list node) :
  Forall is_tag cells ->
  Exists (fun c => Tree.childs c = []) cells ->
  first_childs cells = Raise IndexError.
Proof.
  induction cells as [|c cells IH]; intros Ht Hex; [inversion Hex|].
  inversion Ht as [|x l Hc Hrest]; subst. cbn [first_childs].
  destruct c as [v|c0 [|v vs]]; [contradiction|reflexivity|].
  inversion Hex as [x l He|x l He]; subst; [discriminate|].
  now rewrite (IH Hrest He).
Qed.

(** X18. [pop_row] returning contents is not atomic: when a cell of the
    last row has no content, the call raises [IndexError] after the row
    has been taken out of the body. *)
Theorem pop_row_empty_cell
    (self : t) (b : nat) (cls : tag_class) (rows : list node) (row : node) :
  body_is self b cls (rows ++ [row]) ->
  Forall is_tag (Tree.childs row) ->
  Exists (fun c => Tree.childs c = []) (Tree.childs row) ->
  pop_row None false self = (Raise IndexError, set_body_rows rows self).
Proof.
  intros Hb Ht Hex. rewrite (pop_row_last self b cls rows row false Hb).
  now rewrite (first_childs_empty _ Ht Hex).
Qed.

(** X19. On a body without rows [pop_row] and [pop_cell] raise
    [IndexError] for every index, the defaults included, and leave the
    table as it is. *)
Theorem pop_no_rows
    (self : t) (b : nat) (cls : tag_class) (idr idy idx : option Z)
    (tags : bool) :
  body_is self b cls [] ->
  pop_row idr tags self = (Raise IndexError, self)
  /\ pop_cell idy idx tags self = (Raise IndexError, self).
Proof.
  intros Hb. unfold pop_row, pop_cell.
  rewrite (proj1 Hb), (body_is_rows _ _ _ _ Hb). cbn [length].
  now rewrite !py_index_empty.
Qed.

(** X20. [pop_cell] with the default indexes after [add_row], when
    [add_row] accepts the row ([resize_x] is set, or the row is no wider
    than the widest body row), returns the last value of the row just
    added and leaves the body with the row without that value as its
    last row. *)
Theorem add_row_pop_cell
    (self : t) (b w : nat) (cls : tag_class) (rows : list node)
    (row : list pyval) (v : pyval) (resize_x : bool) :
  body_is self b cls rows ->
  (resize_x = false ->
   py_max (map len rows) = Some w /\ length (row ++ [v]) <= w) ->
  v <> PNone ->
  (add_row (row ++ [v]) resize_x ;; pop_cell None None false) self
  = (Ok (Leaf v),
     set_body_rows (rows ++ [Tag Tr (map (cell_of Td) row)]) self).
Proof.
  intros Hb Hg Hv. unfold bind.
  rewrite (add_row_appends_eq self b w cls rows (row ++ [v]) resize_x Hb Hg).
  pose proof (set_body_rows_is _ _ _ _
                (rows ++ [Tag Tr (map (cell_of Td) (row ++ [v]))]) Hb) as Hb1.
  unfold pop_cell. rewrite (proj1 Hb1), (body_is_rows _ _ _ _ Hb1).
  rewrite length_app. cbn [length]. rewrite Nat.add_1_r, py_index_last.
  rewrite nth_error_middle. cbn [Tree.childs].
  rewrite map_app, length_app. cbn [map length].
  rewrite Nat.add_1_r, py_index_last, nth_error_middle, remove_nth_last.
  rewrite set_nth_middle.
  rewrite (set_body_rows_twice _ _ _ _ _ _ Hb).
  destruct v; [congruence|reflexivity|reflexivity].
Qed.

(** X29. Column resizing does not reach a row without cells: the row
    loop takes such a row for missing and hands the data row to
    [add_row], which checks its width whatever [populate] was given.
    When the first body row owns no cell and the first data row is wider
    than the widest body row, [populate] with [resize_x] raises the
    data-shape error and leaves the table as it was. *)
Theorem populate_row_without_cells
    (self : t) (b w : nat) (cls t_cls : tag_class) (rest : list node)
    (d_row : list pyval) (data : list (list pyval)) (force normalize : bool) :
  body_is self b cls (Tag t_cls [] :: rest) ->
  py_max (map len (Tag t_cls [] :: rest)) = Some w ->
  w < length d_row ->
  populate (Some (d_row :: data)) true force normalize self
  = (Raise (WidgetDataError
              "The given data have more columns than the table."), self).
Proof.
  intros Hb Hw Hlt. unfold populate. rewrite (body_is_not_node _ _ _ _ Hb).
  destruct (py_max (map (@length pyval) (d_row :: data))) as [m|] eqn:Hm;
    [|discriminate].
  cbn [negb]. unfold bind at 1, ret, populate_rows_fuel.
  rewrite (populate_rows_at _ _ _ _ _ _ _ _ (Tag t_cls []))
    by now rewrite (body_is_rows _ _ _ _ Hb).
  cbn [truth negb hd_error add_row_fill]. unfold bind.
  rewrite (add_row_checked d_row self b cls _ Hb), Hw.
  destruct (Nat.ltb_spec w (length d_row)); [reflexivity|lia].
Qed.

Lemma nth_tl {A : Type} (k : nat) (l : list A) (d : A) :
  nth k (tl l) d = nth (S k) l d.
Proof. destruct l; [now destruct k|reflexivity]. Qed.

(** The cell loop with a cell without content ahead, at a position the
    data row does not reach beyond and where it has [None] or nothing:
    the new cell appended for it has no content either and is met with
    the data row used up. *)
Lemma merge_cells_stuck (force : bool) (fuel : nat) :
  forall (i j : nat) (d : list pyval) (cells : list node) (c : node),
    i <= j ->
    nth_error cells j = Some c ->
    truth c = false ->
    length d + i <= S j ->
    nth (j - i) d PNone = PNone ->
    fst (merge_cells fuel true force (Some i) d cells) = OutOfFuel.
Proof.
  induction fuel as [|fuel IH]; intros i j d cells c Hij Hj Hc Hd Hv;
    [reflexivity|].
  assert (Hlen : j < length cells) by (apply nth_error_Some; congruence).
  destruct (nth_error cells i) as [ci|] eqn:Hi.
  2:{ apply nth_error_None in Hi. lia. }
  rewrite (merge_cells_at _ _ _ _ _ _ _ Hi), andb_true_r.
  destruct (Nat.eq_dec i j) as [->|Hne].
  - assert (ci = c) by congruence. subst ci. rewrite Hc. cbn [negb].
    rewrite Nat.sub_diag in Hv.
    assert (E : fill (hd_error d) = PNone /\ tl d = []).
    { destruct d as [|v [|v' d]]; cbn in *; try (split; congruence). lia. }
    destruct E as [-> ->]. rewrite merge_cell_new_None.
    apply (merge_cells_never force fuel (S j) (length cells) _ (new Td));
      [lia| |reflexivity].
    rewrite nth_error_app2, Nat.sub_diag by lia. reflexivity.
  - assert (Hd' : length (tl d) + S i <= S j)
      by (destruct d; cbn [tl length] in *; lia).
    assert (Hv' : nth (j - S i) (tl d) PNone = PNone).
    { rewrite nth_tl. now replace (S (j - S i)) with (j - i) by lia. }
    destruct (truth ci); cbn [negb].
    + apply (IH (S i) j _ _ c); try assumption; [lia|].
      rewrite nth_error_set_nth_other by lia. assumption.
    + apply (IH (S i) j _ _ c); try assumption; [lia|].
      rewrite nth_error_app1 by lia. assumption.
Qed.

(** X30. A cell without content can keep [populate] from returning.  With
    [resize_x], when the first body row, a row of cells, has a cell
    without content at a position where the first data row (not empty,
    and padded when [normalize] is set) has [None] or nothing and beyond
    which it has no value, the cell loop appends a new cell without
    content each time it meets one: it uses up every step budget, and so
    does the call. *)
Theorem populate_never_returns
    (self : t) (b : nat) (cls t_cls c_cls : tag_class)
    (cells rest : list node) (d_row : list pyval) (data : list (list pyval))
    (force normalize : bool) (m j : nat) :
  body_is self b cls (Tag t_cls cells :: rest) ->
  Forall is_tag cells ->
  d_row <> [] ->
  py_max (map (@length pyval) (d_row :: data)) = Some m ->
  nth_error cells j = Some (Tag c_cls []) ->
  length (if normalize then ljust d_row m else d_row) <= S j ->
  nth j (if normalize then ljust d_row m else d_row) PNone = PNone ->
  fst (populate (Some (d_row :: data)) true force normalize self) = OutOfFuel
  /\ forall fuel,
       fst (merge_cells fuel true force (Some 0)
              (if normalize then ljust d_row m else d_row) cells)
       = OutOfFuel.
Proof.
  intros Hb _ Hd Hm Hj Hlen Hv.
  assert (Hloop : forall fuel,
            fst (merge_cells fuel true force (Some 0)
                   (if normalize then ljust d_row m else d_row) cells)
            = OutOfFuel).
  { intros fuel.
    apply (merge_cells_stuck force fuel 0 j _ _ (Tag c_cls []));
      try assumption; try reflexivity; try lia.
    now rewrite Nat.sub_0_r. }
  split; [|exact Hloop].
  unfold populate. rewrite (body_is_not_node _ _ _ _ Hb), Hm.
  cbn [negb]. unfold bind at 1, ret, populate_rows_fuel.
  rewrite (populate_rows_at _ _ _ _ _ _ _ _ (Tag t_cls cells))
    by now rewrite (body_is_rows _ _ _ _ Hb).
  assert (Ht : truth (Tag t_cls cells) = true).
  { destruct cells; [destruct j; discriminate|reflexivity]. }
  rewrite Ht. cbn [negb hd_error not_row].
  replace (TempyTable.is_nil d_row) with false
    by (destruct d_row; [congruence|reflexivity]).
  cbn [andb]. unfold bind, merge_row. cbn [Tree.childs].
  specialize (Hloop (merge_cells_fuel cells
                       (if normalize then ljust d_row m else d_row))).
  destruct (merge_cells _ true force (Some 0) _ cells) as [r cells'].
  cbn [fst] in *. now subst r.
Qed.

(** *** The properties above at concrete tables *)

Lemma populate_idempotent_same_rows_witness :
  populate (Some [[PStr "x"; PStr "y"]; [PStr "z"; PStr "w"]]) true true true
    (snd (populate (Some [[PStr "x"; PStr "y"]; [PStr "z"; PStr "w"]])
            true true true (table_of [["a"]; ["b"]])))
  = populate (Some [[PStr "x"; PStr "y"]; [PStr "z"; PStr "w"]]) true true true
      (table_of [["a"]; ["b"]]).
Proof.
  apply (populate_idempotent_same_rows _ 0 Tbody
           (map row_of [["a"]; ["b"]])).
  - split; reflexivity.
  - discriminate.
  - reflexivity.
  - repeat (constructor; [split; [reflexivity|intros _; repeat constructor]|]).
    constructor.
  - intros _. repeat constructor; discriminate.
  - intros _. exists 2. split.
    + repeat (constructor; [split; [reflexivity|repeat constructor; discriminate]|]).
      constructor.
    + repeat constructor.
Defined.





Lemma populate_empty_body_witness :
  populate (Some [[PStr "x"; PNone]]) false true true (table_of [])
  = (Ok tt,
     mk (childs (table_of [])
         ++ [Tag Tbody (map (fun row => Tag Tr (map (cell_of Td) row))
                          [[PStr "x"; PNone]])])
        (Some (length (childs (table_of [])))) (header (table_of []))
        (footer (table_of [])) (caption (table_of []))).
Proof. apply (populate_empty_body (table_of []) 0 Tbody). split; reflexivity. Defined.

Lemma populate_keeps_widths_witness :
  map len
    (body_rows
       (snd (populate (Some [[PStr "x"]; [PStr "y"]]) false true false
               (table_of [["a"]; ["b"]]))))
  = map len (map row_of [["a"]; ["b"]]).
Proof.
  apply (populate_keeps_widths _ 0 Tbody).
  - split; reflexivity.
  - reflexivity.
  - repeat (constructor; [split; [reflexivity|discriminate]|]). constructor.
  - intros _. repeat constructor; discriminate.
Defined.

Lemma populate_ragged_AttributeError_witness :
  fst (populate (Some [[PStr "x"; PStr "y"]; [PStr "z"]]) false true true
         (table_of [["a"; "b"]; ["c"]]))
  = Raise AttributeError.
Proof.
  apply (populate_ragged_AttributeError _ 0 Tbody
           (map row_of [["a"; "b"]; ["c"]]) _ true 2 2).
  - split; reflexivity.
  - reflexivity.
  - repeat (constructor; [split; [reflexivity|discriminate]|]). constructor.
  - intros _. repeat constructor; discriminate.
  - reflexivity.
  - reflexivity.
  - lia.
  - apply Exists_cons_tl, Exists_cons_hd. unfold len. simpl. lia.
Defined.

Lemma populate_only_body_witness :
  same_but 1 (snd (TempyTable 0 0 (Some [[PStr "h"]; [PStr "a"]]) PNone true false))
    (snd (populate (Some [[PStr "x"]; [PStr "y"]]) true true true
            (snd (TempyTable 0 0 (Some [[PStr "h"]; [PStr "a"]]) PNone true
                    false)))).
Proof.
  apply (populate_only_body _ 1 Tbody [Tag Tr [Tag Td [Leaf (PStr "a")]]]).
  - split; reflexivity.
  - discriminate.
Defined.

Lemma populate_row_without_cells_witness :
  populate (Some [[PStr "x"]]) true true true
    (mk [Tag Tbody [Tag Tr []]] (Some 0) None None None)
  = (Raise (WidgetDataError
              "The given data have more columns than the table."),
     mk [Tag Tbody [Tag Tr []]] (Some 0) None None None).
Proof.
  apply (populate_row_without_cells _ 0 0 Tbody Tr []).
  - split; reflexivity.
  - reflexivity.
  - simpl. lia.
Defined.

Lemma populate_never_returns_witness :
  fst (populate (Some [[PNone]]) true true true
         (snd (TempyTable 1 1 None PNone false false))) = OutOfFuel
  /\ forall fuel,
       fst (merge_cells fuel true true (Some 0)
              (if true then ljust [PNone] 1 else [PNone]) [Tag Td []])
       = OutOfFuel.
Proof.
  apply (populate_never_returns _ 0 Tbody Tr Td [Tag Td []] [] [PNone] []
           true true 1 0).
  - split; reflexivity.
  - repeat constructor.
  - discriminate.
  - reflexivity.
  - reflexivity.
  - simpl. lia.
  - reflexivity.
Defined.

Lemma add_row_too_wide_witness :
  add_row [PStr "x"; PStr "y"] false (table_of [["a"]])
  = (Raise (WidgetDataError
              "The given data have more columns than the table."),
     table_of [["a"]]).
Proof.
  apply (add_row_too_wide (table_of [["a"]]) 0 1).
  - reflexivity.
  - reflexivity.
  - simpl. lia.
Defined.

Lemma add_row_no_rows_witness :
  add_row [] false (table_of []) = (Raise ValueError, table_of [])
  /\ add_row [] true (table_of [])
     = (Ok tt, set_body_rows [new_row Td []] (table_of [])).
Proof. apply (add_row_no_rows (table_of []) 0 Tbody). split; reflexivity. Defined.

Lemma add_row_appends_witness :
  fst (add_row [PStr "x"] false (table_of [["a"]])) = Ok tt
  /\ body_rows (snd (add_row [PStr "x"] false (table_of [["a"]])))
     = map row_of [["a"]] ++ [Tag Tr (map (cell_of Td) [PStr "x"])].
Proof.
  apply (add_row_appends (table_of [["a"]]) 0 1 Tbody).
  - split; reflexivity.
  - intros _. split; [reflexivity | simpl; lia].
Defined.


Lemma init_blank_table_witness :
  fst (TempyTable 2 3 (Some []) PNone true false)
  = Ok (repeat (repeat PNone 3) 2)
  /\ childs (snd (TempyTable 2 3 (Some []) PNone true false))
     = caption_part PNone
       ++ part_if true (Tag Thead [blank_row Th 3])
       ++ part_if false (Tag Tfoot [blank_row Td 3])
       ++ [Tag Tbody (repeat (blank_row Td 3) 2)]
  /\ body_rows (snd (TempyTable 2 3 (Some []) PNone true false))
     = repeat (blank_row Td 3) 2.
Proof. apply init_blank_table. now right. Defined.

Lemma add_row_pop_row_witness :
  (add_row [PStr "x"] false ;; pop_row None false) (table_of [["a"]])
  = (Ok (RowValues (map Leaf [PStr "x"])), table_of [["a"]]).
Proof.
  apply (add_row_pop_row (table_of [["a"]]) 0 1 Tbody (map row_of [["a"]])).
  - split; reflexivity.
  - intros _. split; [reflexivity | simpl; lia].
  - repeat constructor; discriminate.
Defined.

Lemma pop_row_empty_cell_witness :
  pop_row None false
    (mk [Tag Tbody [Tag Tr [Tag Td [Leaf (PStr "a")]; Tag Td []]]]
        (Some 0) None None None)
  = (Raise IndexError,
     set_body_rows []
       (mk [Tag Tbody [Tag Tr [Tag Td [Leaf (PStr "a")]; Tag Td []]]]
           (Some 0) None None None)).
Proof.
  apply (pop_row_empty_cell _ 0 Tbody []
           (Tag Tr [Tag Td [Leaf (PStr "a")]; Tag Td []])).
  - split; reflexivity.
  - repeat constructor.
  - apply Exists_cons_tl, Exists_cons_hd. reflexivity.
Defined.

Lemma pop_no_rows_witness :
  pop_row None false (table_of []) = (Raise IndexError, table_of [])
  /\ pop_cell None None false (table_of []) = (Raise IndexError, table_of []).
Proof. apply (pop_no_rows (table_of []) 0 Tbody). split; reflexivity. Defined.

Lemma add_row_pop_cell_witness :
  (add_row ([PStr "x"] ++ [PStr "y"]) false ;; pop_cell None None false)
    (table_of [["a"; "b"]])
  = (Ok (Leaf (PStr "y")),
     set_body_rows
       (map row_of [["a"; "b"]] ++ [Tag Tr (map (cell_of Td) [PStr "x"])])
       (table_of [["a"; "b"]])).
Proof.
  apply (add_row_pop_cell (table_of [["a"; "b"]]) 0 2 Tbody
           (map row_of [["a"; "b"]])).
  - split; reflexivity.
  - intros _. split; [reflexivity | simpl; lia].
  - discriminate.
Defined.

End TableMore.

(** ** The list tree builder *)

Module ListProps.
Import Tree TempyList TableNotions ListNotions.
Local Open Scope call_scope.

Lemma pyval_eqb_spec (a b : pyval) : reflect (a = b) (pyval_eqb a b).
Proof.
  destruct a as [|s|z], b as [|s'|z']; simpl; try (constructor; congruence).
  - destruct (String.eqb_spec s s'); constructor; congruence.
  - destruct (Z.eqb_spec z z'); constructor; congruence.
Qed.

(** *** Flat sequences *)

Lemma existsb_eqb_In (x : pyval) (l : list pyval) :
  existsb (pyval_eqb x) l = true <-> In x l.
Proof.
  rewrite existsb_exists. split.
  - intros (y & Hy & He). destruct (pyval_eqb_spec x y); congruence.
  - intros Hin. exists x. split; [assumption|].
    destruct (pyval_eqb_spec x x); congruence.
Qed.

Lemma distinct_from_In (l : list pyval) :
  forall seen k, In k (distinct_from seen l) <-> In k l /\ ~ In k seen.
Proof.
  induction l as [|x l IH]; intros seen k; simpl; [tauto|].
  destruct (existsb (pyval_eqb x) seen) eqn:E.
  - apply existsb_eqb_In in E. rewrite IH. split.
    + tauto.
    + intros [[->|Hin] Hn]; tauto.
  - assert (Hx : ~ In x seen).
    { intros Hin. apply existsb_eqb_In in Hin. congruence. }
    simpl. rewrite IH, in_app_iff. simpl.
    destruct (pyval_eq_dec x k) as [->|Hne]; tauto.
Qed.

Lemma distinct_from_NoDup (l : list pyval) :
  forall seen, NoDup (distinct_from seen l).
Proof.
  induction l as [|x l IH]; intros seen; simpl; [constructor|].
  destruct (existsb (pyval_eqb x) seen); [apply IH|].
  constructor; [|apply IH].
  rewrite distinct_from_In, in_app_iff. simpl. tauto.
Qed.

Lemma distinct_In (l : list pyval) (k : pyval) : In k (distinct l) <-> In k l.
Proof. unfold distinct. rewrite distinct_from_In. simpl. tauto. Qed.

Lemma distinct_NoDup (l : list pyval) : NoDup (distinct l).
Proof. apply distinct_from_NoDup. Qed.

(** A sequence with a repeated element has fewer distinct elements than
    positions. *)
Lemma distinct_shorter (l : list pyval) :
  ~ NoDup l -> length (distinct l) < length l.
Proof.
  intros Hdup. destruct (Nat.lt_ge_cases (length (distinct l)) (length l))
    as [Hlt|Hge]; [assumption|].
  exfalso. apply Hdup.
  apply (NoDup_incl_NoDup (distinct_NoDup l) Hge).
  intros k. apply distinct_In.
Qed.

(** [d[x] = None] on a dict whose values are all [None]. *)
Lemma dict_set_no_sub (x : pyval) (ks : list pyval) :
  dict_set x ONone (map no_sub ks)
  = map no_sub (if existsb (pyval_eqb x) ks then ks else ks ++ [x]).
Proof.
  induction ks as [|k ks IH]; simpl; [reflexivity|].
  destruct (pyval_eqb x k); simpl; [reflexivity|].
  rewrite IH. destruct (existsb (pyval_eqb x) ks); reflexivity.
Qed.

Lemma dict_no_sub (l : list pyval) :
  forall ks,
    fold_left (fun d p => dict_set (fst p) (snd p) d) (map no_sub l)
      (map no_sub ks)
    = map no_sub (ks ++ distinct_from ks l).
Proof.
  induction l as [|x l IH]; intros ks; simpl.
  - now rewrite app_nil_r.
  - rewrite dict_set_no_sub.
    destruct (existsb (pyval_eqb x) ks); rewrite IH; [reflexivity|].
    now rewrite <- app_assoc.
Qed.

Lemma zip_longest_nil_r {A B : Type} (l : list A) :
  zip_longest l (@nil B) = map (fun x => (Some x, None)) l.
Proof. induction l as [|x l IH]; simpl; [reflexivity | now rewrite IH]. Qed.

(** The dict a non-empty flat sequence is turned into: its distinct
    elements in order, each without sub-structure. *)
Lemma dict_of_flat_eq (l : list pyval) :
  l <> [] -> dict_of_flat l = map no_sub (distinct l).
Proof.
  destruct l as [|x l]; [congruence|]. intros _.
  unfold dict_of_flat, dict. cbn [zip_longest map fst fill].
  rewrite zip_longest_nil_r, map_map. cbn [fst fill].
  exact (dict_no_sub (x :: l) []).
Qed.

(** The item loop of [populate] over entries without sub-structure. *)
Lemma populate_no_sub (F : pyobj -> pyobj -> result node) (c cls : tag_class)
    (ks : list pyval) :
  forall cs,
    populate F c (ODict (map no_sub ks)) (Tag cls cs)
    = (Ok tt, Tag cls (cs ++ map item_of ks)).
Proof.
  unfold populate. induction ks as [|k ks IH]; intros cs.
  - simpl. now rewrite app_nil_r.
  - cbn [map for_each]. unfold bind at 1. cbn [no_sub obj_truthy].
    rewrite TableProps.call_new_leaf. cbn [call filter is_absent negb].
    unfold cell_of at 1. cbn [is_absent negb].
    fold (cell_of Li k). fold (item_of k).
    rewrite IH, <- app_assoc. reflexivity.
Qed.

(** *** Every call of the factory ends *)

(** A sub-structure is less deeply nested than the mapping it is in. *)
Lemma depth_cons (k : pyval) (v : pyobj) (d : list (pyval * pyobj)) :
  depth (ODict ((k, v) :: d)) = Nat.max (S (depth v)) (depth (ODict d)).
Proof. cbn [depth]. lia. Qed.

Lemma depth_entry (d : list (pyval * pyobj)) (k : pyval) (v : pyobj) :
  In (k, v) d -> depth v < depth (ODict d).
Proof.
  induction d as [|[k' v'] d IH]; [easy|]. intros [E|Hin]; rewrite depth_cons.
  - injection E as -> ->. lia.
  - specialize (IH Hin). lia.
Qed.

Lemma dict_pop_depth (k : pyval) (d : list (pyval * pyobj)) :
  forall v d', dict_pop k d = Some (v, d') -> depth (ODict d') <= depth (ODict d).
Proof.
  induction d as [|[k' v'] d IH]; intros v d1; cbn [dict_pop]; [discriminate|].
  destruct (pyval_eqb k k').
  - intros E. injection E as <- <-. rewrite depth_cons. lia.
  - destruct (dict_pop k d) as [[v2 d2]|]; [|discriminate].
    intros E. injection E as <- <-. rewrite !depth_cons.
    specialize (IH v2 d2 eq_refl). lia.
Qed.

Lemma pop_typ_depth (typ struct : pyobj) :
  depth (snd (pop_typ typ struct)) <= depth struct.
Proof.
  destruct struct as [| | | | |d]; cbn [pop_typ snd]; try lia.
  destruct (dict_pop (PStr "_typ") d) as [[v d']|] eqn:E; cbn [snd]; [|lia].
  exact (dict_pop_depth _ _ _ _ E).
Qed.

Lemma dict_of_flat_values (l : list pyval) (k : pyval) (v : pyobj) :
  In (k, v) (dict_of_flat l) -> v = ONone.
Proof.
  destruct l as [|x l].
  - cbn. intros [E|[]]. now injection E.
  - rewrite dict_of_flat_eq by discriminate. rewrite in_map_iff.
    intros (k' & E & _). now injection E.
Qed.

(** [populate] ends when the factory does on every sub-structure. *)
Lemma populate_items_total (F : pyobj -> pyobj -> result node) (c : tag_class)
    (struct : pyobj) :
  (forall typ k sub d, struct = ODict d -> In (k, sub) d ->
                       F typ sub <> OutOfFuel) ->
  forall self, fst (populate F c struct self) <> OutOfFuel.
Proof.
  intros HF self.
  assert (Hloop : forall d,
            (forall k sub, In (k, sub) d -> obj_truthy sub = true ->
                           F (OClass c) sub <> OutOfFuel) ->
            fst (populate F c (ODict d) self) <> OutOfFuel).
  { intros d Hd. unfold populate. apply for_each_total_In.
    intros [k sub] Hin s1. destruct (obj_truthy sub) eqn:Ht; [|discriminate].
    specialize (Hd k sub Hin Ht).
    destruct (F (OClass c) sub); cbn [fst]; congruence. }
  destruct struct as [| | | |l|d]; try (cbn; discriminate).
  - change (populate F c (OList l) self)
      with (populate F c (ODict (dict_of_flat l)) self).
    apply Hloop. intros k sub Hin Ht.
    rewrite (dict_of_flat_values l k sub Hin) in Ht. discriminate.
  - apply Hloop. intros k sub Hin _. now apply (HF _ k sub d).
Qed.

Section WithTags.
Variable tags_getattr : string -> option pyobj.

(** One level of the factory. *)
Lemma TempyList_fuel_S (fuel : nat) (typ struct : pyobj) :
  TempyList_fuel tags_getattr (S fuel) typ struct
  = match resolve tags_getattr (fst (pop_typ typ struct)) with
    | Ok c =>
        match populate (TempyList_fuel tags_getattr fuel) c
                (snd (pop_typ typ struct)) (new c) with
        | (Ok _, self) => Ok self
        | (Raise e, _) => Raise e
        | (OutOfFuel, _) => OutOfFuel
        end
    | Raise e => Raise e
    | OutOfFuel => OutOfFuel
    end.
Proof. cbn [TempyList_fuel]. destruct (pop_typ typ struct). reflexivity. Qed.

(** C9. A flat sequence is turned into a mapping before the items are
    made, so equal elements collapse: for every flat sequence with a
    repeated element the list owns one item per distinct element, in the
    order of first occurrence, which is fewer items than positions. *)
Theorem flat_duplicates_collapse
    (typ : pyobj) (c : tag_class) (l : list pyval) :
  resolve tags_getattr typ = Ok c ->
  ~ NoDup l ->
  TempyList tags_getattr typ (OList l) = Ok (Tag c (map item_of (distinct l)))
  /\ NoDup (distinct l)
  /\ (forall k, In k (distinct l) <-> In k l)
  /\ length (map item_of (distinct l)) < length l.
Proof.
  intros Hc Hdup. split; [|split; [|split]].
  - assert (Hne : l <> []) by (intros ->; apply Hdup; constructor).
    unfold TempyList. cbn [depth]. rewrite TempyList_fuel_S.
    cbn [pop_typ fst snd]. rewrite Hc.
    assert (Hp : populate (TempyList_fuel tags_getattr 0) c (OList l) (new c)
                 = (Ok tt, Tag c (map item_of (distinct l)))).
    { change (populate (TempyList_fuel tags_getattr 0) c (OList l) (new c))
        with (populate (TempyList_fuel tags_getattr 0) c
                (ODict (dict_of_flat l)) (new c)).
      rewrite (dict_of_flat_eq l Hne).
      exact (populate_no_sub _ c c (distinct l) []). }
    rewrite Hp. reflexivity.
  - apply distinct_NoDup.
  - apply distinct_In.
  - rewrite length_map. now apply distinct_shorter.
Qed.

(** *** Nested structures and the flavor of a sub-list *)


(** *** The flavor factory *)

Lemma depth_pos (struct : pyobj) : exists k, depth struct = S k.
Proof. destruct struct; simpl; eauto. Qed.

Lemma pop_typ_no_override (typ struct : pyobj) :
  embedded_typ struct = None -> pop_typ typ struct = (typ, struct).
Proof.
  destruct struct as [| | | | |d]; try reflexivity. simpl.
  destruct (dict_pop (PStr "_typ") d) as [[v d']|]; [discriminate|reflexivity].
Qed.

Lemma resolve_ends (typ : pyobj) : resolve tags_getattr typ <> OutOfFuel.
Proof.
  assert (H : forall t,
            match (if obj_truthy t then t else OClass Ul) with
            | OClass c => Ok c
            | _ => Raise AttributeError
            end <> @OutOfFuel tag_class).
  { intros t. destruct (obj_truthy t); [destruct t|]; discriminate. }
  unfold resolve. destruct typ as [|s| | | |]; try apply H.
  destruct (tags_getattr s); [apply H|discriminate].
Qed.

(** The factory ends within any bound on the nesting that is at least
    the depth of the structure. *)
Lemma TempyList_fuel_total (fuel : nat) :
  forall typ struct,
    depth struct <= fuel ->
    TempyList_fuel tags_getattr fuel typ struct <> OutOfFuel.
Proof.
  induction fuel as [|fuel IH]; intros typ struct Hd.
  - destruct (depth_pos struct) as (k & Hk). lia.
  - rewrite TempyList_fuel_S.
    destruct (resolve tags_getattr (fst (pop_typ typ struct))) as [c|e|] eqn:Hr.
    + pose proof (populate_items_total (TempyList_fuel tags_getattr fuel) c
                    (snd (pop_typ typ struct))) as Hp.
      destruct (populate _ c _ (new c)) as [[a|e|] self] eqn:E;
        try discriminate.
      exfalso. specialize (Hp ltac:(
        intros typ' k sub d Hs Hin; apply IH;
        pose proof (pop_typ_depth typ struct) as Hle; rewrite Hs in Hle;
        pose proof (depth_entry d k sub Hin); lia) (new c)).
      rewrite E in Hp. now apply Hp.
    + discriminate.
    + now apply resolve_ends in Hr.
Qed.

(** [TempyList] is total: every call returns a list or raises. *)
Theorem TempyList_total (typ struct : pyobj) :
  TempyList tags_getattr typ struct <> OutOfFuel.
Proof. apply TempyList_fuel_total. lia. Qed.

(** C7, as the code has it.  The factory rejects a string token when the
    token is the one in effect, that is when the structure embeds no
    ["_typ"] override, and the token names no attribute of the tags
    module: the call raises the configuration error at the lookup,
    before the list class is made and instantiated, so without any node,
    and the structure is left as it was given.  When the structure
    embeds an override, the call is the call with the override as the
    token: the caller's token is not looked up. *)
Theorem unknown_flavor_rejected (s : string) (struct : pyobj) :
  tags_getattr s = None ->
  (embedded_typ struct = None ->
   TempyList tags_getattr (OStr s) struct
   = Raise (WidgetError "TempyList type not expected.")
   /\ pop_typ (OStr s) struct = (OStr s, struct))
  /\ (forall ov : pyobj,
        embedded_typ struct = Some ov ->
        TempyList tags_getattr (OStr s) struct
        = TempyList tags_getattr ov struct).
Proof.
  intros Hs. split.
  - intros Hno. split; [|now apply pop_typ_no_override].
    unfold TempyList. destruct (depth_pos struct) as (k & ->).
    rewrite TempyList_fuel_S, (pop_typ_no_override _ _ Hno).
    cbn [fst]. unfold resolve. rewrite Hs. reflexivity.
  - intros ov Hov. unfold TempyList.
    destruct struct as [| | | | |d]; try discriminate.
    cbn [embedded_typ] in Hov.
    destruct (dict_pop (PStr "_typ") d) as [[v d']|] eqn:E; [|discriminate].
    destruct (depth_pos (ODict d)) as (k & ->).
    rewrite !TempyList_fuel_S. cbn [pop_typ]. now rewrite E.
Qed.

End WithTags.

Lemma flat_duplicates_collapse_witness :
  TempyList some_tags ONone (OList [PStr "a"; PStr "a"; PStr "b"])
  = Ok (Tag Ul (map item_of (distinct [PStr "a"; PStr "a"; PStr "b"])))
  /\ NoDup (distinct [PStr "a"; PStr "a"; PStr "b"])
  /\ (forall k, In k (distinct [PStr "a"; PStr "a"; PStr "b"])
                <-> In k [PStr "a"; PStr "a"; PStr "b"])
  /\ length (map item_of (distinct [PStr "a"; PStr "a"; PStr "b"]))
     < length [PStr "a"; PStr "a"; PStr "b"].
Proof.
  apply (flat_duplicates_collapse some_tags ONone Ul).
  - reflexivity.
  - intros H. inversion H as [|x l' Hnin Hnd]. apply Hnin. simpl. auto.
Defined.


Lemma unknown_flavor_rejected_witness :
  (embedded_typ nested_struct = None ->
   TempyList some_tags (OStr "NotARealFlavor") nested_struct
   = Raise (WidgetError "TempyList type not expected.")
   /\ pop_typ (OStr "NotARealFlavor") nested_struct
      = (OStr "NotARealFlavor", nested_struct))
  /\ (forall ov : pyobj,
        embedded_typ nested_struct = Some ov ->
        TempyList some_tags (OStr "NotARealFlavor") nested_struct
        = TempyList some_tags ov nested_struct).
Proof.
  apply (unknown_flavor_rejected some_tags "NotARealFlavor" nested_struct).
  reflexivity.
Defined.

(** C7 as stated fails on the code.  A token that names no list variant is
    not rejected for every structure: a structure that embeds its own
    ["_typ"] makes the factory drop the caller's token before it is looked
    up; a token that names any class of the tags module, such as the
    cell tag, is taken as the flavor; and a token that names an attribute
    of the module that is no class, such as [__name__], passes the lookup
    and fails later with another error. *)
Lemma unknown_flavor_not_rejected :
  some_tags "NotARealFlavor" = None
  /\ TempyList some_tags (OStr "NotARealFlavor")
       (ODict [(PStr "_typ", OStr "Ul"); (PStr "a", ONone)])
     = Ok (Tag Ul [Tag Li [Leaf (PStr "a")]])
  /\ TempyList some_tags (OStr "Td") (OList [PStr "a"])
     = Ok (Tag Td [Tag Li [Leaf (PStr "a")]])
  /\ TempyList some_tags (OStr "__name__") (OList [PStr "a"])
     = Raise AttributeError.
Proof. repeat split; reflexivity. Qed.

End ListProps.

(** ** The list tree builder: order, flavors, sub-structures *)

Module ListMore.
Import Tree TempyList TableNotions ListNotions TableProps ListProps.
Local Open Scope call_scope.

Lemma distinct_from_NoDup_id (l : list pyval) :
  forall seen,
    NoDup l -> (forall x, In x l -> ~ In x seen) -> distinct_from seen l = l.
Proof.
  induction l as [|x l IH]; intros seen Hnd Hdis; [reflexivity|].
  cbn [distinct_from]. inversion Hnd as [|y l' Hx Hl]; subst.
  destruct (existsb (pyval_eqb x) seen) eqn:E.
  - apply existsb_eqb_In in E. exfalso. apply (Hdis x); simpl; auto.
  - f_equal. apply IH; [assumption|].
    intros y Hy Hin. apply in_app_or in Hin. destruct Hin as [Hin|[->|[]]].
    + apply (Hdis y); simpl; auto.
    + contradiction.
Qed.

(** A dict whose sub-structures are all false as conditions gives plain
    items. *)
Lemma populate_plain (F : pyobj -> pyobj -> result node) (c cls : tag_class)
    (d : list (pyval * pyobj)) :
  Forall (fun entry => obj_truthy (snd entry) = false) d ->
  forall cs,
    populate F c (ODict d) (Tag cls cs)
    = (Ok tt, Tag cls (cs ++ map (fun entry => item_of (fst entry)) d)).
Proof.
  unfold populate. induction 1 as [|[k sub] d Hk _ IH]; intros cs.
  - simpl. now rewrite app_nil_r.
  - cbn [map for_each fst]. unfold bind at 1. cbn [snd] in Hk. rewrite Hk.
    rewrite call_new_leaf. cbn [call filter is_absent negb].
    unfold cell_of at 1. cbn [is_absent negb].
    fold (cell_of Li k). fold (item_of k).
    rewrite IH, <- app_assoc. reflexivity.
Qed.

Section S.
Variable tags_getattr : string -> option pyobj.

(** X21. List flattening: a flat sequence without repeated elements gives
    exactly one item per element, in the order of the sequence, none with
    a nested list. *)
Theorem flat_keeps_order (typ : pyobj) (c : tag_class) (l : list pyval) :
  resolve tags_getattr typ = Ok c ->
  l <> [] ->
  NoDup l ->
  TempyList tags_getattr typ (OList l) = Ok (Tag c (map item_of l)).
Proof.
  intros Hc Hne Hnd. unfold TempyList. cbn [depth].
  rewrite TempyList_fuel_S. cbn [pop_typ fst snd]. rewrite Hc.
  change (populate (TempyList_fuel tags_getattr 0) c (OList l) (new c))
    with (populate (TempyList_fuel tags_getattr 0) c
            (ODict (dict_of_flat l)) (new c)).
  rewrite (dict_of_flat_eq l Hne).
  rewrite (populate_no_sub _ c c (distinct l) []). cbn [app].
  unfold distinct. rewrite distinct_from_NoDup_id; auto.
Qed.

(** X22. An empty flat sequence does not give an empty list: zipping it
    with [[None]] yields the one pair [(None, None)], so the list owns one
    item without content. *)
Theorem flat_empty_one_item (typ : pyobj) (c : tag_class) :
  resolve tags_getattr typ = Ok c ->
  TempyList tags_getattr typ (OList []) = Ok (Tag c [Tag Li []]).
Proof.
  intros Hc. unfold TempyList. cbn [depth].
  rewrite TempyList_fuel_S. cbn [pop_typ fst snd]. rewrite Hc. reflexivity.
Qed.

(** X23. The list build is additive, not idempotent: populating a list
    twice from the same flat sequence appends its items twice. *)
Theorem populate_twice_appends
    (F : pyobj -> pyobj -> result node) (c cls : tag_class)
    (l : list pyval) (cs : list node) :
  l <> [] ->
  (populate F c (OList l) ;; populate F c (OList l)) (Tag cls cs)
  = (Ok tt,
     Tag cls (cs ++ map item_of (distinct l) ++ map item_of (distinct l))).
Proof.
  intros Hne. unfold bind.
  change (populate F c (OList l)) with (populate F c (ODict (dict_of_flat l))).
  rewrite (dict_of_flat_eq l Hne), !populate_no_sub.
  now rewrite <- app_assoc.
Qed.

(** X24. A sub-structure that is false as a condition (an empty sequence,
    mapping or string, zero, [None]) gives no nested list: a mapping
    whose values are all such builds one plain item per key, in order. *)
Theorem plain_dict (typ : pyobj) (c : tag_class) (d : list (pyval * pyobj)) :
  resolve tags_getattr typ = Ok c ->
  embedded_typ (ODict d) = None ->
  Forall (fun entry => obj_truthy (snd entry) = false) d ->
  TempyList tags_getattr typ (ODict d)
  = Ok (Tag c (map (fun entry => item_of (fst entry)) d)).
Proof.
  intros Hc Hno Hd. unfold TempyList.
  destruct (depth_pos (ODict d)) as (k & ->).
  rewrite TempyList_fuel_S, (pop_typ_no_override _ _ Hno).
  cbn [fst snd]. rewrite Hc. unfold new.
  now rewrite (populate_plain _ c c d Hd []).
Qed.

Lemma dict_pop_typ (ks : list pyval) (ov : pyobj) (rest : list (pyval * pyobj)) :
  ~ In (PStr "_typ") ks ->
  dict_pop (PStr "_typ") (map no_sub ks ++ (PStr "_typ", ov) :: rest)
  = Some (ov, map no_sub ks ++ rest).
Proof.
  induction ks as [|k ks IH]; intros Hn.
  - reflexivity.
  - cbn [map app dict_pop no_sub].
    destruct (pyval_eqb_spec (PStr "_typ") k) as [E|Hne].
    + exfalso. apply Hn. left. now symmetry.
    + rewrite IH; [reflexivity|]. intros Hin. apply Hn. now right.
Qed.

(** X25. The value under ["_typ"] of the mapping decides the flavor,
    whatever token the caller passes, valid or not, and its key is no
    item of the list: the result is the list of the other keys in the
    flavor the override resolves to, or the error its resolution
    raises. *)
Theorem embedded_typ_decides
    (typ ov : pyobj) (ks1 ks2 : list pyval) :
  ~ In (PStr "_typ") ks1 ->
  ~ In (PStr "_typ") ks2 ->
  TempyList tags_getattr typ
    (ODict (map no_sub ks1 ++ (PStr "_typ", ov) :: map no_sub ks2))
  = match resolve tags_getattr ov with
    | Ok c => Ok (Tag c (map item_of (ks1 ++ ks2)))
    | Raise e => Raise e
    | OutOfFuel => OutOfFuel
    end.
Proof.
  intros Hn _. unfold TempyList.
  destruct (depth_pos
              (ODict (map no_sub ks1 ++ (PStr "_typ", ov) :: map no_sub ks2)))
    as (k & ->).
  rewrite TempyList_fuel_S. cbn [pop_typ].
  rewrite (dict_pop_typ ks1 ov (map no_sub ks2) Hn). cbn [fst snd].
  destruct (resolve tags_getattr ov) as [c|e|]; try reflexivity.
  rewrite <- map_app. unfold new.
  now rewrite (populate_no_sub _ c c (ks1 ++ ks2) []).
Qed.

End S.

Section S.
Variable tags_getattr : string -> option pyobj.

(** X26. A failing sub-list leaves a partial list: when the factory raises
    for the sub-structure of a key, [populate] raises the same error and
    the list has kept the items made so far, the item of that key
    included. *)
Theorem populate_failing_sub
    (c cls : tag_class) (ks : list pyval) (k : pyval) (sub : pyobj)
    (rest : list (pyval * pyobj)) (cs : list node) (e : exn) :
  obj_truthy sub = true ->
  TempyList tags_getattr (OClass c) sub = Raise e ->
  populate (TempyList tags_getattr) c
    (ODict (map no_sub ks ++ (k, sub) :: rest)) (Tag cls cs)
  = (Raise e, Tag cls (cs ++ map item_of ks ++ [item_of k])).
Proof.
  intros Ht Hs. unfold populate. revert cs.
  induction ks as [|k0 ks IH]; intros cs.
  - cbn [map app for_each]. unfold bind. rewrite Ht, Hs.
    rewrite call_new_leaf. reflexivity.
  - cbn [map app for_each]. unfold bind at 1. cbn [no_sub obj_truthy].
    rewrite call_new_leaf. cbn [call filter is_absent negb].
    unfold cell_of at 1. cbn [is_absent negb].
    fold (cell_of Li k0). fold (item_of k0).
    rewrite IH, <- app_assoc. reflexivity.
Qed.

Lemma tag_eqb_refl (c : tag_class) : tag_eqb c c = true.
Proof. unfold tag_eqb. apply String.eqb_refl. Qed.

Lemma only_tags_item (c : tag_class) (k : pyval) :
  only_tags (list_tags c) (item_of k) = true.
Proof. destruct k; reflexivity. Qed.

Lemma only_tags_item_sub (c : tag_class) (k : pyval) (sub : node) :
  only_tags (list_tags c) sub = true ->
  only_tags (list_tags c) (call (item_of k) [sub]) = true.
Proof.
  intros Hs. unfold item_of, cell_of, call. cbn [filter].
  destruct (negb (is_absent sub)); destruct k; cbn; rewrite ?Hs; reflexivity.
Qed.

Lemma no_typ_cons (k : pyval) (v : pyobj) (d : list (pyval * pyobj)) :
  no_typ (ODict ((k, v) :: d))
  = negb (pyval_eqb (PStr "_typ") k) && no_typ v && no_typ (ODict d).
Proof. reflexivity. Qed.

Lemma no_typ_pop (d : list (pyval * pyobj)) :
  no_typ (ODict d) = true -> dict_pop (PStr "_typ") d = None.
Proof.
  induction d as [|[k v] d IH]; [reflexivity|]. rewrite no_typ_cons.
  intros H. apply andb_prop in H. destruct H as [H Hd].
  apply andb_prop in H. destruct H as [Hk Hv]. cbn [dict_pop].
  destruct (pyval_eqb (PStr "_typ") k); [discriminate|]. now rewrite IH.
Qed.

Lemma no_typ_entry (d : list (pyval * pyobj)) (k : pyval) (v : pyobj) :
  no_typ (ODict d) = true -> In (k, v) d -> no_typ v = true.
Proof.
  induction d as [|[k' v'] d IH]; [easy|]. rewrite no_typ_cons.
  intros H. apply andb_prop in H. destruct H as [H Hd].
  apply andb_prop in H. destruct H as [Hk Hv].
  intros [E|Hin]; [now injection E as <- <-|now apply IH].
Qed.

(** The item loop keeps the list within the classes of its flavor when
    the factory does for every sub-structure. *)
Lemma populate_flavored (F : pyobj -> pyobj -> result node) (c : tag_class)
    (d : list (pyval * pyobj)) :
  (forall k sub n, In (k, sub) d -> F (OClass c) sub = Ok n ->
                   only_tags (list_tags c) n = true) ->
  forall cls cs,
    forallb (only_tags (list_tags c)) cs = true ->
    exists cs',
      snd (populate F c (ODict d) (Tag cls cs)) = Tag cls cs'
      /\ forallb (only_tags (list_tags c)) cs' = true.
Proof.
  unfold populate. induction d as [|[k sub] d IH]; intros HF cls cs Hcs.
  - exists cs. now split.
  - cbn [for_each]. unfold bind.
    rewrite call_new_leaf. fold (item_of k). unfold len.
    cbn [call Tree.childs filter].
    replace (negb (is_absent (item_of k))) with true
      by (destruct k; reflexivity).
    assert (Hi : forallb (only_tags (list_tags c)) (cs ++ [item_of k]) = true).
    { rewrite forallb_app, Hcs. cbn [forallb].
      now rewrite only_tags_item. }
    destruct (obj_truthy sub).
    + destruct (F (OClass c) sub) as [n|e|] eqn:E; cbn [snd].
      * rewrite set_nth_app_last. apply IH.
        -- intros k' sub' n' Hin. apply (HF k'). now right.
        -- rewrite forallb_app, Hcs. cbn [forallb].
           rewrite only_tags_item_sub; [reflexivity|].
           apply (HF k sub n); [now left|assumption].
      * exists (cs ++ [item_of k]). now split.
      * exists (cs ++ [item_of k]). now split.
    + apply IH; [|assumption].
      intros k' sub' n' Hin. apply (HF k'). now right.
Qed.

(** Flavor inheritance under any bound on the nesting. *)
Lemma flavor_inherited_fuel (c : tag_class) (fuel : nat) :
  forall typ struct n,
    resolve tags_getattr typ = Ok c ->
    no_typ struct = true ->
    TempyList_fuel tags_getattr fuel typ struct = Ok n ->
    only_tags (list_tags c) n = true.
Proof.
  induction fuel as [|fuel IH]; intros typ struct n Hc Hno Hn;
    [discriminate|].
  rewrite TempyList_fuel_S in Hn.
  assert (Hp : pop_typ typ struct = (typ, struct)).
  { apply pop_typ_no_override. destruct struct; try reflexivity.
    cbn [embedded_typ]. now rewrite no_typ_pop. }
  rewrite Hp in Hn. cbn [fst snd] in Hn. rewrite Hc in Hn.
  assert (Hroot : forallb (only_tags (list_tags c)) [] = true) by reflexivity.
  assert (Hd : forall d,
            (forall k sub, In (k, sub) d -> no_typ sub = true) ->
            populate (TempyList_fuel tags_getattr fuel) c (ODict d) (new c)
            = (Ok tt, n) ->
            only_tags (list_tags c) n = true).
  { intros d Hsub Hrun.
    destruct (populate_flavored (TempyList_fuel tags_getattr fuel) c d)
      with (cls := c) (cs := @nil node) as (cs' & Hs & Hok).
    - intros k sub n' Hin Hsubn.
      apply (IH (OClass c) sub n'); [reflexivity| |assumption].
      now apply (Hsub k).
    - reflexivity.
    - unfold new in Hrun. rewrite Hrun in Hs. cbn [snd] in Hs. subst n.
      cbn [only_tags]. unfold list_tags at 1.
      now rewrite tag_eqb_refl, orb_true_r, Hok. }
  destruct struct as [| | | |l|d];
    try (unfold populate, raise in Hn; discriminate).
  - unfold populate, ret in Hn. injection Hn as <-. cbn. unfold list_tags.
    now rewrite tag_eqb_refl, orb_true_r.
  - change (populate (TempyList_fuel tags_getattr fuel) c (OList l) (new c))
      with (populate (TempyList_fuel tags_getattr fuel) c
              (ODict (dict_of_flat l)) (new c)) in Hn.
    destruct (populate _ c (ODict (dict_of_flat l)) (new c))
      as [[[]|e|] self] eqn:E; try discriminate.
    injection Hn as ->. apply (Hd (dict_of_flat l)); [|exact E].
    intros k sub Hin. now rewrite (dict_of_flat_values l k sub Hin).
  - destruct (populate _ c (ODict d) (new c)) as [[[]|e|] self] eqn:E;
      try discriminate.
    injection Hn as ->. apply (Hd d); [|exact E].
    intros k sub Hin. now apply (no_typ_entry d k sub Hno).
Qed.

(** X27. The flavor is inherited at every depth: when no mapping of the
    structure has a ["_typ"] key, every tag of the tree the factory
    returns is the item tag or the flavor of the root. *)
Theorem flavor_inherited (typ struct : pyobj) (c : tag_class) (n : node) :
  resolve tags_getattr typ = Ok c ->
  no_typ struct = true ->
  TempyList tags_getattr typ struct = Ok n ->
  only_tags (list_tags c) n = true.
Proof. intros Hc Hno Hn. exact (flavor_inherited_fuel c _ _ _ _ Hc Hno Hn). Qed.

End S.

(** *** The properties above at concrete structures *)

Lemma flat_keeps_order_witness :
  TempyList some_tags ONone (OList [PStr "a"; PStr "b"; PStr "c"])
  = Ok (Tag Ul (map item_of [PStr "a"; PStr "b"; PStr "c"])).
Proof.
  apply (flat_keeps_order some_tags ONone Ul).
  - reflexivity.
  - discriminate.
  - repeat constructor; simpl; intuition discriminate.
Defined.

Lemma flat_empty_one_item_witness :
  TempyList some_tags (OStr "Ol") (OList []) = Ok (Tag Ol [Tag Li []]).
Proof. apply (flat_empty_one_item some_tags). reflexivity. Defined.

Lemma populate_twice_appends_witness :
  (populate (TempyList some_tags) Ul (OList [PStr "a"; PStr "a"]) ;;
   populate (TempyList some_tags) Ul (OList [PStr "a"; PStr "a"]))
    (Tag Ul [])
  = (Ok tt,
     Tag Ul ([] ++ map item_of (distinct [PStr "a"; PStr "a"])
                ++ map item_of (distinct [PStr "a"; PStr "a"]))).
Proof. apply populate_twice_appends. discriminate. Defined.

Lemma plain_dict_witness :
  TempyList some_tags ONone
    (ODict [(PStr "a", OList []); (PStr "b", OStr ""); (PStr "c", ODict [])])
  = Ok (Tag Ul (map (fun entry => item_of (fst entry))
                  [(PStr "a", OList []); (PStr "b", OStr "");
                   (PStr "c", ODict [])])).
Proof.
  apply (plain_dict some_tags ONone Ul).
  - reflexivity.
  - reflexivity.
  - repeat constructor.
Defined.

Lemma embedded_typ_decides_witness :
  TempyList some_tags (OStr "NotARealFlavor")
    (ODict (map no_sub [PStr "a"] ++ (PStr "_typ", OStr "Ol")
              :: map no_sub [PStr "b"]))
  = match resolve some_tags (OStr "Ol") with
    | Ok c => Ok (Tag c (map item_of ([PStr "a"] ++ [PStr "b"])))
    | Raise e => Raise e
    | OutOfFuel => OutOfFuel
    end.
Proof.
  apply (embedded_typ_decides some_tags);
    simpl; intuition discriminate.
Defined.

Lemma populate_failing_sub_witness :
  populate (TempyList some_tags) Ul
    (ODict (map no_sub [PStr "a"] ++ (PStr "b", OStr "oops")
              :: [(PStr "c", ONone)])) (Tag Ul [])
  = (Raise (WidgetDataError
              "List Imput not managed, expected (dict, list), got <class 'str'>"),
     Tag Ul ([] ++ map item_of [PStr "a"] ++ [item_of (PStr "b")])).
Proof. apply (populate_failing_sub some_tags); reflexivity. Defined.

Lemma flavor_inherited_witness :
  only_tags (list_tags Ol)
    (Tag Ol
       [Tag Li
          [Leaf (PStr "a");
           Tag Ol [Tag Li [Leaf (PStr "b");
                           Tag Ol [Tag Li [Leaf (PStr "c")]]]]]])
  = true.
Proof.
  apply (flavor_inherited some_tags (OStr "Ol")
           (ODict [(PStr "a", ODict [(PStr "b", OList [PStr "c"])])]));
    reflexivity.
Defined.

End ListMore.
